(** * nano_every: 6-DOF servo controller (src/main.cpp)

    A shallow embedding of the firmware's command interpreter and of its
    single-active-servo motion scheduler, followed by the properties the
    design document states about them.

    Conventions.
    - [int] is the 16-bit signed integer of the AVR target; values are kept
      in [Z] and the wrap-around of [++] and [--] is written with [int16].
    - [unsigned long] is 32 bits; [millis()] readings and their differences
      are reduced with [ulong].
    - C arrays are lists indexed by [Z]; see [aget] and [aset] for what the
      model does outside the bounds (where the C program has no defined
      behaviour).
    - The two serial ports are byte streams; everything the firmware prints
      is appended to [serial_tx] or [bt_tx].
    - The calls made to the Servo library that act on the hardware are
      appended to [servo_log]. *)

From Stdlib Require Import ZArith Ascii String DecimalString Lia.
From stdpp Require Import base list.

Local Open Scope Z_scope.

(** ** Machine integers *)

Definition int16 (z : Z) : Z := (z + 32768) mod 65536 - 32768.
Definition ulong (z : Z) : Z := z mod 4294967296.

Definition INT_MIN : Z := -32768.
Definition INT_MAX : Z := 32767.

(** ** Arrays *)

(** [arr[i]]; a read outside the array yields [d]. *)
Definition aget {A : Type} (d : A) (arr : list A) (i : Z) : A :=
  if i <? 0 then d else default d (arr !! Z.to_nat i).

(** [arr[i] = x]; a write outside the array is dropped. *)
Definition aset {A : Type} (arr : list A) (i : Z) (x : A) : list A :=
  if i <? 0 then arr else <[Z.to_nat i := x]> arr.

(** ** Characters and C strings *)

Definition NUL : ascii := ascii_of_N 0.
Definition LF : ascii := ascii_of_N 10.
Definition CR : ascii := ascii_of_N 13.

Definition chars (s : string) : list ascii := list_ascii_of_string s.

Definition CRLF : list ascii := [CR; LF].

(** The characters of the C string that starts at the head of [mem]: all
    of them up to the first NUL. *)
Fixpoint cstr (mem : list ascii) : list ascii :=
  match mem with
  | [] => []
  | c :: rest => if Ascii.eqb c NUL then [] else c :: cstr rest
  end.

Definition strlen (mem : list ascii) : Z := Z.of_nat (length (cstr mem)).

Definition toupper (c : ascii) : ascii :=
  let n := N_of_ascii c in
  if ((97 <=? n) && (n <=? 122))%N then ascii_of_N (n - 32) else c.

Definition isspace (c : ascii) : bool :=
  let n := N_of_ascii c in
  ((n =? 32) || ((9 <=? n) && (n <=? 13)))%N.

Definition isdigit (c : ascii) : bool :=
  let n := N_of_ascii c in
  ((48 <=? n) && (n <=? 57))%N.

Definition digit_val (c : ascii) : Z := Z.of_N (N_of_ascii c) - 48.

Fixpoint skip_spaces (mem : list ascii) : list ascii :=
  match mem with
  | [] => []
  | c :: rest => if isspace c then skip_spaces rest else mem
  end.

Fixpoint atoi_digits (acc : Z) (mem : list ascii) : Z :=
  match mem with
  | [] => acc
  | c :: rest =>
      if isdigit c then atoi_digits (int16 (acc * 10 + digit_val c)) rest
      else acc
  end.

(** [atoi] of the C library: leading white space, an optional sign, then
    decimal digits accumulated in an [int] without overflow detection; any
    other character (the NUL included) ends the number, and no digits at
    all give 0. *)
Definition atoi (mem : list ascii) : Z :=
  match skip_spaces mem with
  | [] => 0
  | c :: rest =>
      if Ascii.eqb c "-" then int16 (- atoi_digits 0 rest)
      else if Ascii.eqb c "+" then atoi_digits 0 rest
      else atoi_digits 0 (c :: rest)
  end.

(** The text [%d] of [sprintf] and [Print::print(int)] produce. *)
Definition dec (z : Z) : list ascii :=
  list_ascii_of_string (NilZero.string_of_int (Z.to_int z)).

(** ** Servo configuration *)

Definition NUM_SERVOS : Z := 6.
Definition SERVO_NAMES : list ascii := ["A"; "B"; "C"; "D"; "E"; "F"]%char.
Definition SERVO_PINS : list Z := [4; 5; 6; 7; 8; 9].

Definition minAngles : list Z := [0; 45; 0; 90; 0; 90].
Definition maxAngles : list Z := [180; 90; 85; 180; 180; 180].

Definition name_of (i : Z) : ascii := aget NUL SERVO_NAMES i.
Definition min_of (i : Z) : Z := aget 0 minAngles i.
Definition max_of (i : Z) : Z := aget 0 maxAngles i.

(** ** Global state *)

(** What the firmware observes of a [Servo] object. *)
Record Servo : Type := { attached : bool }.

Definition servo_off : Servo := {| attached := false |}.
Definition servo_on : Servo := {| attached := true |}.

(** Effects of the Servo library on the outputs. *)
Inductive ServoCall : Type :=
  | Attach (idx pin : Z)
  | Detach (idx : Z)
  | Write (idx angle : Z).

Inductive Port : Type := Serial | BTSerial.

Record State : Type := {
  servos : list Servo;
  currentAngles : list Z;
  targetAngles : list Z;
  moveSpeed : Z;
  activeServo : Z;
  lastInfoMs : Z;
  lastMoveMs : Z;
  btCommandBuffer : list ascii;
  btBufferIndex : Z;
  (* the world outside the sketch *)
  serial_tx : list ascii;
  bt_tx : list ascii;
  led : bool;
  servo_log : list ServoCall
}.

Definition with_servos (v : list Servo) (s : State) : State :=
  {| servos := v; currentAngles := currentAngles s;
     targetAngles := targetAngles s; moveSpeed := moveSpeed s;
     activeServo := activeServo s; lastInfoMs := lastInfoMs s;
     lastMoveMs := lastMoveMs s; btCommandBuffer := btCommandBuffer s;
     btBufferIndex := btBufferIndex s; serial_tx := serial_tx s;
     bt_tx := bt_tx s; led := led s; servo_log := servo_log s |}.

Definition with_currentAngles (v : list Z) (s : State) : State :=
  {| servos := servos s; currentAngles := v;
     targetAngles := targetAngles s; moveSpeed := moveSpeed s;
     activeServo := activeServo s; lastInfoMs := lastInfoMs s;
     lastMoveMs := lastMoveMs s; btCommandBuffer := btCommandBuffer s;
     btBufferIndex := btBufferIndex s; serial_tx := serial_tx s;
     bt_tx := bt_tx s; led := led s; servo_log := servo_log s |}.

Definition with_targetAngles (v : list Z) (s : State) : State :=
  {| servos := servos s; currentAngles := currentAngles s;
     targetAngles := v; moveSpeed := moveSpeed s;
     activeServo := activeServo s; lastInfoMs := lastInfoMs s;
     lastMoveMs := lastMoveMs s; btCommandBuffer := btCommandBuffer s;
     btBufferIndex := btBufferIndex s; serial_tx := serial_tx s;
     bt_tx := bt_tx s; led := led s; servo_log := servo_log s |}.

Definition with_activeServo (v : Z) (s : State) : State :=
  {| servos := servos s; currentAngles := currentAngles s;
     targetAngles := targetAngles s; moveSpeed := moveSpeed s;
     activeServo := v; lastInfoMs := lastInfoMs s;
     lastMoveMs := lastMoveMs s; btCommandBuffer := btCommandBuffer s;
     btBufferIndex := btBufferIndex s; serial_tx := serial_tx s;
     bt_tx := bt_tx s; led := led s; servo_log := servo_log s |}.

Definition with_lastInfoMs (v : Z) (s : State) : State :=
  {| servos := servos s; currentAngles := currentAngles s;
     targetAngles := targetAngles s; moveSpeed := moveSpeed s;
     activeServo := activeServo s; lastInfoMs := v;
     lastMoveMs := lastMoveMs s; btCommandBuffer := btCommandBuffer s;
     btBufferIndex := btBufferIndex s; serial_tx := serial_tx s;
     bt_tx := bt_tx s; led := led s; servo_log := servo_log s |}.

Definition with_lastMoveMs (v : Z) (s : State) : State :=
  {| servos := servos s; currentAngles := currentAngles s;
     targetAngles := targetAngles s; moveSpeed := moveSpeed s;
     activeServo := activeServo s; lastInfoMs := lastInfoMs s;
     lastMoveMs := v; btCommandBuffer := btCommandBuffer s;
     btBufferIndex := btBufferIndex s; serial_tx := serial_tx s;
     bt_tx := bt_tx s; led := led s; servo_log := servo_log s |}.

Definition with_btCommandBuffer (v : list ascii) (s : State) : State :=
  {| servos := servos s; currentAngles := currentAngles s;
     targetAngles := targetAngles s; moveSpeed := moveSpeed s;
     activeServo := activeServo s; lastInfoMs := lastInfoMs s;
     lastMoveMs := lastMoveMs s; btCommandBuffer := v;
     btBufferIndex := btBufferIndex s; serial_tx := serial_tx s;
     bt_tx := bt_tx s; led := led s; servo_log := servo_log s |}.

Definition with_btBufferIndex (v : Z) (s : State) : State :=
  {| servos := servos s; currentAngles := currentAngles s;
     targetAngles := targetAngles s; moveSpeed := moveSpeed s;
     activeServo := activeServo s; lastInfoMs := lastInfoMs s;
     lastMoveMs := lastMoveMs s; btCommandBuffer := btCommandBuffer s;
     btBufferIndex := v; serial_tx := serial_tx s;
     bt_tx := bt_tx s; led := led s; servo_log := servo_log s |}.

Definition with_serial_tx (v : list ascii) (s : State) : State :=
  {| servos := servos s; currentAngles := currentAngles s;
     targetAngles := targetAngles s; moveSpeed := moveSpeed s;
     activeServo := activeServo s; lastInfoMs := lastInfoMs s;
     lastMoveMs := lastMoveMs s; btCommandBuffer := btCommandBuffer s;
     btBufferIndex := btBufferIndex s; serial_tx := v;
     bt_tx := bt_tx s; led := led s; servo_log := servo_log s |}.

Definition with_bt_tx (v : list ascii) (s : State) : State :=
  {| servos := servos s; currentAngles := currentAngles s;
     targetAngles := targetAngles s; moveSpeed := moveSpeed s;
     activeServo := activeServo s; lastInfoMs := lastInfoMs s;
     lastMoveMs := lastMoveMs s; btCommandBuffer := btCommandBuffer s;
     btBufferIndex := btBufferIndex s; serial_tx := serial_tx s;
     bt_tx := v; led := led s; servo_log := servo_log s |}.

Definition with_led (v : bool) (s : State) : State :=
  {| servos := servos s; currentAngles := currentAngles s;
     targetAngles := targetAngles s; moveSpeed := moveSpeed s;
     activeServo := activeServo s; lastInfoMs := lastInfoMs s;
     lastMoveMs := lastMoveMs s; btCommandBuffer := btCommandBuffer s;
     btBufferIndex := btBufferIndex s; serial_tx := serial_tx s;
     bt_tx := bt_tx s; led := v; servo_log := servo_log s |}.

Definition with_servo_log (v : list ServoCall) (s : State) : State :=
  {| servos := servos s; currentAngles := currentAngles s;
     targetAngles := targetAngles s; moveSpeed := moveSpeed s;
     activeServo := activeServo s; lastInfoMs := lastInfoMs s;
     lastMoveMs := lastMoveMs s; btCommandBuffer := btCommandBuffer s;
     btBufferIndex := btBufferIndex s; serial_tx := serial_tx s;
     bt_tx := bt_tx s; led := led s; servo_log := v |}.

(** The globals as their declarations initialise them, before [setup]. *)
Definition boot : State :=
  {| servos := replicate 6 servo_off;
     currentAngles := replicate 6 0;
     targetAngles := replicate 6 0;
     moveSpeed := 20;
     activeServo := -1;
     lastInfoMs := 0;
     lastMoveMs := 0;
     btCommandBuffer := replicate 32 NUL;
     btBufferIndex := 0;
     serial_tx := [];
     bt_tx := [];
     led := false;
     servo_log := [] |}.

(** ** Library calls *)

Definition print (out : Port) (txt : list ascii) (s : State) : State :=
  match out with
  | Serial => with_serial_tx (serial_tx s ++ txt) s
  | BTSerial => with_bt_tx (bt_tx s ++ txt) s
  end.

Definition println (out : Port) (txt : list ascii) (s : State) : State :=
  print out (txt ++ CRLF) s.

Definition servo_attached (i : Z) (s : State) : bool :=
  attached (aget servo_off (servos s) i).

Definition servo_attach (i pin : Z) (s : State) : State :=
  with_servo_log (servo_log s ++ [Attach i pin])
    (with_servos (aset (servos s) i servo_on) s).

Definition servo_detach (i : Z) (s : State) : State :=
  with_servo_log (servo_log s ++ [Detach i])
    (with_servos (aset (servos s) i servo_off) s).

Definition servo_write (i angle : Z) (s : State) : State :=
  with_servo_log (servo_log s ++ [Write i angle]) s.

(** [for (int i = lo; ...; i++) body], run for [n] rounds. *)
Fixpoint for_upto (n : nat) (i : Z) (body : Z → State → State) (s : State)
  : State :=
  match n with
  | O => s
  | S k => for_upto k (i + 1) body (body i s)
  end.

(** ** Helpers *)

Definition detachAllExcept (keepIdx : Z) (s : State) : State :=
  for_upto (Z.to_nat NUM_SERVOS) 0
    (fun i st =>
       if negb (i =? keepIdx) && servo_attached i st
       then servo_detach i st else st)
    s.

Definition attachIfNeeded (idx : Z) (s : State) : State :=
  if negb (servo_attached idx s)
  then servo_attach idx (aget 0 SERVO_PINS idx) s
  else s.

(** Statements run one after the other. *)
Definition and_then (f g : State → State) : State → State :=
  fun s => g (f s).
Infix ">>" := and_then (at level 61, left associativity).

(** ** setup *)

(** [Serial.begin], [BTSerial.begin] and [pinMode] configure the ports and
    leave every modelled variable as it is.  [t] is what [millis()]
    returns on its last line. *)
Definition setup (t : Z) : State → State :=
  for_upto (Z.to_nat NUM_SERVOS) 0
    (fun i st =>
       let st1 := with_currentAngles (aset (currentAngles st) i (min_of i)) st in
       with_targetAngles (aset (targetAngles st1) i (min_of i)) st1)
  >> println Serial (chars "--- 6-DOF Servo Control Ready ---")
  >> println Serial
       (chars "Send 'SERVOANGLE' (e.g., A90). Send '?' for HELP. Send 'G' for STATUS.")
  >> println BTSerial
       (chars "6-DOF Control Ready. Use 'SERVOANGLE' (e.g., A90). '?'=HELP, 'G'=STATUS")
  >> with_lastInfoMs (ulong t).

(** ** processCommand *)

(** Lines 156-162: the HELP reply. *)
Definition cmd_help (out : Port) : State → State :=
  println out (chars "HELP: Send SERVOANGLE (e.g., A90 or F150). Ranges:")
  >> print out (chars " A: ") >> print out (dec (min_of 0))
  >> print out (chars "-") >> println out (dec (max_of 0))
  >> print out (chars " B: ") >> print out (dec (min_of 1))
  >> print out (chars "-") >> println out (dec (max_of 1))
  >> print out (chars " C: ") >> print out (dec (min_of 2))
  >> print out (chars "-") >> println out (dec (max_of 2))
  >> print out (chars " D: ") >> print out (dec (min_of 3))
  >> print out (chars "-") >> println out (dec (max_of 3))
  >> print out (chars " E: ") >> print out (dec (min_of 4))
  >> print out (chars "-") >> println out (dec (max_of 4))
  >> print out (chars " F: ") >> print out (dec (min_of 5))
  >> print out (chars "-") >> println out (dec (max_of 5)).

(** Lines 168-175: the STATUS reply. *)
Definition cmd_status (out : Port) : State → State :=
  print out (chars "STATUS:")
  >> for_upto (Z.to_nat NUM_SERVOS) 0
       (fun i =>
          print out (chars " ") >> print out [name_of i]
          >> print out (chars "=")
          >> (fun st => print out (dec (aget 0 (currentAngles st) i)) st))
  >> print out (chars " | SPEED=")
  >> (fun st => println out (dec (moveSpeed st)) st).

(** Lines 180-183: the index of the first name equal to [u], or -1. *)
Fixpoint find_servo (u : ascii) (names : list ascii) (i : Z) : Z :=
  match names with
  | [] => -1
  | n :: rest => if Ascii.eqb u n then i else find_servo u rest (i + 1)
  end.

Definition ok_text (servoIndex newAngle : Z) : list ascii :=
  chars "OK:" ++ [name_of servoIndex] ++ chars "->" ++ dec newAngle
    ++ chars " (range " ++ dec (min_of servoIndex) ++ chars "-"
    ++ dec (max_of servoIndex) ++ chars ")".

Definition err_range_text (servoIndex : Z) : list ascii :=
  chars "ERR:" ++ [name_of servoIndex] ++ chars " range "
    ++ dec (min_of servoIndex) ++ chars "-" ++ dec (max_of servoIndex).

(** Lines 190-206: an angle inside the range of the servo. *)
Definition cmd_accept (servoIndex newAngle : Z) (out : Port) : State → State :=
  (fun st =>
     if negb (activeServo st =? -1) && negb (activeServo st =? servoIndex)
     then
       if servo_attached (activeServo st) st
       then servo_detach (activeServo st) st else st
     else st)
  >> detachAllExcept servoIndex
  >> attachIfNeeded servoIndex
  >> (fun st => with_targetAngles (aset (targetAngles st) servoIndex newAngle) st)
  >> with_activeServo servoIndex
  >> println out (ok_text servoIndex newAngle)
  >> println Serial (ok_text servoIndex newAngle)
  >> with_led true.

(** Lines 208-211: an angle outside the range of the servo. *)
Definition cmd_reject (servoIndex : Z) (out : Port) : State → State :=
  println out (err_range_text servoIndex)
  >> println Serial (err_range_text servoIndex).

(** Line 217. *)
Definition cmd_unknown (cmdStr : list ascii) (out : Port) : State → State :=
  print out (chars "ERR:Unknown cmd '") >> print out (cstr cmdStr)
  >> println out (chars "'").

(** [cmdStr] is the memory the pointer designates; [out] is the port the
    replies go to. *)
Definition processCommand (cmdStr : list ascii) (out : Port) (s : State)
  : bool * State :=
  if Ascii.eqb (aget NUL cmdStr 0) NUL then (false, s)
  else
    let u := toupper (aget NUL cmdStr 0) in
    if Ascii.eqb u "?" || Ascii.eqb u "H" then (true, cmd_help out s)
    else if Ascii.eqb u "G" then (true, cmd_status out s)
    else
      let servoIndex := find_servo u SERVO_NAMES 0 in
      if negb (servoIndex =? -1) && (1 <? strlen cmdStr) then
        let newAngle := atoi (drop 1 cmdStr) in
        if (min_of servoIndex <=? newAngle) && (newAngle <=? max_of servoIndex)
        then (true, cmd_accept servoIndex newAngle out s)
        else (true, cmd_reject servoIndex out s)
      else (true, cmd_unknown cmdStr out s).

(** ** loop *)

Definition is_eol (c : ascii) : bool := Ascii.eqb c LF || Ascii.eqb c CR.

(** Lines 100-113: one round of the [while] loop, for the byte [c] read
    from the Bluetooth port; [t] is what [millis()] returns on line 108. *)
Definition bt_byte (t : Z) (c : ascii) (s : State) : State :=
  if is_eol c then
    if 0 <? btBufferIndex s then
      let s1 :=
        with_btCommandBuffer
          (aset (btCommandBuffer s) (btBufferIndex s) NUL) s in
      let s2 := snd (processCommand (btCommandBuffer s1) BTSerial s1) in
      with_lastInfoMs (ulong t) (with_btBufferIndex 0 s2)
    else s
  else if btBufferIndex s <? 31 then
    with_btBufferIndex (int16 (btBufferIndex s + 1))
      (with_btCommandBuffer
         (aset (btCommandBuffer s) (btBufferIndex s) c) s)
  else s.

(** Lines 99-114: the bytes in [input] are those available on the
    Bluetooth port; [clock k] is the reading of [millis()] while the byte
    at position [k] is handled. *)
Fixpoint bt_drain (clock : nat → Z) (k : nat) (input : list ascii)
  (s : State) : State :=
  match input with
  | [] => s
  | c :: rest => bt_drain clock (S k) rest (bt_byte (clock k) c s)
  end.

(** Line 119: enough time has passed since the last step. *)
Definition throttle_open (t : Z) (s : State) : bool :=
  ulong (moveSpeed s) <=? ulong (ulong t - lastMoveMs s).

(** Lines 117-138; [t_gate] and [t_step] are the readings of [millis()]
    on lines 119 and 120. *)
Definition move_step (t_gate t_step : Z) (s : State) : State :=
  if negb (activeServo s =? -1) then
    if throttle_open t_gate s then
      let s1 := with_lastMoveMs (ulong t_step) s in
      let i := activeServo s1 in
      if negb (aget 0 (currentAngles s1) i =? aget 0 (targetAngles s1) i)
      then
        let s2 :=
          if aget 0 (currentAngles s1) i <? aget 0 (targetAngles s1) i
          then with_currentAngles
                 (aset (currentAngles s1) i
                    (int16 (aget 0 (currentAngles s1) i + 1))) s1
          else with_currentAngles
                 (aset (currentAngles s1) i
                    (int16 (aget 0 (currentAngles s1) i - 1))) s1 in
        servo_write i (aget 0 (currentAngles s2) i) s2
      else
        let s2 := if servo_attached i s1 then servo_detach i s1 else s1 in
        let s3 := with_led false (with_activeServo (-1) s2) in
        let doneBuf :=
          chars "DONE:" ++ [name_of i] ++ chars "="
            ++ dec (aget 0 (currentAngles s3) i) in
        println BTSerial doneBuf (println Serial doneBuf s3)
    else s
  else s.

Definition ready_text : list ascii :=
  chars "READY: Use A..F+angle (e.g., A90, F150), '?' for HELP, 'G' for STATUS".

(** Lines 141-145; [t_idle] and [t_hint] are the readings of [millis()]
    on lines 141 and 144. *)
Definition idle_hint (t_idle t_hint : Z) (s : State) : State :=
  if (activeServo s =? -1) && (5000 <? ulong (ulong t_idle - lastInfoMs s))
  then
    with_lastInfoMs (ulong t_hint)
      (println Serial ready_text (println BTSerial ready_text s))
  else s.

(** What one pass of [loop] takes from outside: the bytes waiting on the
    Bluetooth port and the readings of the millisecond timer. *)
Record LoopEnv : Type := {
  rx : list ascii;
  t_rx : nat → Z;
  t_gate : Z;
  t_step : Z;
  t_idle : Z;
  t_hint : Z
}.

Definition loop (e : LoopEnv) (s : State) : State :=
  idle_hint (t_idle e) (t_hint e)
    (move_step (t_gate e) (t_step e)
       (bt_drain (t_rx e) 0 (rx e) s)).

(** Passes of [loop], one per element of [es]. *)
Fixpoint run (es : list LoopEnv) (s : State) : State :=
  match es with
  | [] => s
  | e :: rest => run rest (loop e s)
  end.

(** ** Notions used by the statements *)

Definition valid_idx (i : Z) : Prop := 0 ≤ i < NUM_SERVOS.

Definition current_of (i : Z) (s : State) : Z := aget 0 (currentAngles s) i.
Definition target_of (i : Z) (s : State) : Z := aget 0 (targetAngles s) i.

(** Degrees left to travel for servo [i]. *)
Definition distance (i : Z) (s : State) : Z :=
  Z.abs (target_of i s - current_of i s).

(** [cmdStr] is a motion command for servo [c] whose number reads [a]. *)
Definition addresses (cmdStr : list ascii) (c a : Z) : Prop :=
  valid_idx c
  ∧ toupper (aget NUL cmdStr 0) = name_of c
  ∧ 1 < strlen cmdStr
  ∧ atoi (drop 1 cmdStr) = a.

(** The command that names servo [c] and spells [a] in decimal. *)
Definition request (c a : Z) : list ascii := name_of c :: dec a ++ [NUL].

(** A byte string as it sits in memory. *)
Definition mem (txt : string) : list ascii := chars txt ++ [NUL].

Definition done_text (c a : Z) : list ascii :=
  chars "DONE:" ++ [name_of c] ++ chars "=" ++ dec a.

(** What holds of the globals between any two statements of [loop]. *)
Record Inv (s : State) : Prop := {
  inv_servos : length (servos s) = 6%nat;
  inv_current : length (currentAngles s) = 6%nat;
  inv_target : length (targetAngles s) = 6%nat;
  inv_active : activeServo s = -1 ∨ valid_idx (activeServo s);
  inv_power : ∀ i, valid_idx i →
                servo_attached i s = true ↔ activeServo s = i;
  inv_cur_range : ∀ i, valid_idx i → min_of i ≤ current_of i s ≤ max_of i;
  inv_tgt_range : ∀ i, valid_idx i → min_of i ≤ target_of i s ≤ max_of i;
  inv_buffer : length (btCommandBuffer s) = 32%nat;
  inv_index : 0 ≤ btBufferIndex s ≤ 31;
  inv_speed : moveSpeed s = 20
}.

(** The states the firmware can be in: [setup] has run, and then any
    number of commands were dispatched, bytes received, scheduler ticks
    and idle checks made, in any order and at any time. *)
Inductive reachable : State → Prop :=
  | reach_setup (t : Z) : reachable (setup t boot)
  | reach_command (cmdStr : list ascii) (out : Port) (s : State) :
      reachable s → reachable (snd (processCommand cmdStr out s))
  | reach_byte (t : Z) (c : ascii) (s : State) :
      reachable s → reachable (bt_byte t c s)
  | reach_move (t1 t2 : Z) (s : State) :
      reachable s → reachable (move_step t1 t2 s)
  | reach_hint (t1 t2 : Z) (s : State) :
      reachable s → reachable (idle_hint t1 t2 s).

(** At most one servo is attached. *)
Definition one_powered (s : State) : Prop :=
  ∀ i j, valid_idx i → valid_idx j →
    servo_attached i s = true → servo_attached j s = true → i = j.

(** The active servo, if any, is the one that is attached. *)
Definition active_powered (s : State) : Prop :=
  ∀ c, valid_idx c → activeServo s = c →
    servo_attached c s = true
    ∧ ∀ j, valid_idx j → j ≠ c → servo_attached j s = false.

Definition exclusive (s : State) : Prop := one_powered s ∧ active_powered s.

(** A pass of [loop] during which no byte is waiting. *)
Definition quiet (e : LoopEnv) : Prop := rx e = [].

(** How many of the passes [es], started in [s], find the throttle open. *)
Fixpoint throttled_ticks (es : list LoopEnv) (s : State) : nat :=
  match es with
  | [] => O
  | e :: rest =>
      ((if throttle_open (t_gate e) s then 1 else 0)
       + throttled_ticks rest (loop e s))%nat
  end.

Definition quiet_env (t : Z) : LoopEnv :=
  {| rx := []; t_rx := fun _ => t; t_gate := t; t_step := t;
     t_idle := t; t_hint := t |}.

Definition line_env (txt : string) (t : Z) : LoopEnv :=
  {| rx := chars txt ++ [LF]; t_rx := fun _ => t; t_gate := t; t_step := t;
     t_idle := t; t_hint := t |}.

(** Every reply to a command from the Bluetooth port also appears on the
    primary port. *)
Definition mirrored (cmdStr : list ascii) (s : State) : Prop :=
  ∃ reply, reply ≠ []
    ∧ bt_tx (snd (processCommand cmdStr BTSerial s)) = bt_tx s ++ reply
    ∧ serial_tx (snd (processCommand cmdStr BTSerial s))
      = serial_tx s ++ reply.

(** The command is a servo letter followed by at least one character. *)
Definition is_motion (cmdStr : list ascii) : bool :=
  negb (find_servo (toupper (aget NUL cmdStr 0)) SERVO_NAMES 0 =? -1)
  && (1 <? strlen cmdStr).

Definition is_servo_letter (c : ascii) : bool :=
  negb (find_servo (toupper c) SERVO_NAMES 0 =? -1).

(** The STATUS line for the state [s]. *)
Definition status_text (s : State) : list ascii :=
  chars "STATUS:"
  ++ concat (map (fun i => chars " " ++ [name_of i] ++ chars "="
                           ++ dec (current_of i s))
               [0; 1; 2; 3; 4; 5])
  ++ chars " | SPEED=" ++ dec (moveSpeed s) ++ CRLF.

Definition help_text : list ascii :=
  chars "HELP: Send SERVOANGLE (e.g., A90 or F150). Ranges:" ++ CRLF
  ++ concat (map (fun i => chars " " ++ [name_of i] ++ chars ": "
                           ++ dec (min_of i) ++ chars "-" ++ dec (max_of i)
                           ++ CRLF)
               [0; 1; 2; 3; 4; 5]).

Definition unknown_text (cmdStr : list ascii) : list ascii :=
  chars "ERR:Unknown cmd '" ++ cstr cmdStr ++ chars "'" ++ CRLF.

(** The power switching of an accepted command, case by case. *)
Definition switch_to (idx : Z) (s : State) : State :=
  if activeServo s =? idx then s
  else if activeServo s =? -1 then servo_attach idx (aget 0 SERVO_PINS idx) s
  else servo_attach idx (aget 0 SERVO_PINS idx) (servo_detach (activeServo s) s).

(** [s'] differs from [s] at most in what was sent on the two ports. *)
Definition only_printed (s s' : State) : Prop :=
  servos s' = servos s
  ∧ currentAngles s' = currentAngles s
  ∧ targetAngles s' = targetAngles s
  ∧ moveSpeed s' = moveSpeed s
  ∧ activeServo s' = activeServo s
  ∧ lastInfoMs s' = lastInfoMs s
  ∧ lastMoveMs s' = lastMoveMs s
  ∧ btCommandBuffer s' = btCommandBuffer s
  ∧ btBufferIndex s' = btBufferIndex s
  ∧ led s' = led s
  ∧ servo_log s' = servo_log s.

(** Servo [c] is active and on its way to [a]. *)
Definition moving (c a : Z) (s : State) : Prop :=
  Inv s ∧ valid_idx c ∧ activeServo s = c ∧ target_of c s = a.

(** [addresses] as a test. *)
Definition addresses_b (cmdStr : list ascii) (c a : Z) : bool :=
  (0 <=? c) && (c <? NUM_SERVOS)
  && Ascii.eqb (toupper (aget NUL cmdStr 0)) (name_of c)
  && (1 <? strlen cmdStr)
  && (atoi (drop 1 cmdStr) =? a).

(** The values of [i] that [for_upto n i] passes to its body, in order. *)
Fixpoint indices (n : nat) (i : Z) : list Z :=
  match n with
  | O => []
  | S k => i :: indices k (i + 1)
  end.

(** The servos that [detachAllExcept keepIdx] finds attached, in order. *)
Definition to_detach (keepIdx : Z) (s : State) : list Z :=
  filter (fun i => negb (i =? keepIdx) && servo_attached i s = true)
    (indices (Z.to_nat NUM_SERVOS) 0).

(** [s'] differs from [s] at most in the servo objects and in the calls
    made to them. *)
Definition only_switched (s s' : State) : Prop :=
  currentAngles s' = currentAngles s
  ∧ targetAngles s' = targetAngles s
  ∧ moveSpeed s' = moveSpeed s
  ∧ activeServo s' = activeServo s
  ∧ lastInfoMs s' = lastInfoMs s
  ∧ lastMoveMs s' = lastMoveMs s
  ∧ btCommandBuffer s' = btCommandBuffer s
  ∧ btBufferIndex s' = btBufferIndex s
  ∧ serial_tx s' = serial_tx s
  ∧ bt_tx s' = bt_tx s
  ∧ led s' = led s
  ∧ length (servos s') = length (servos s).

Definition is_write (ev : ServoCall) : bool :=
  match ev with
  | Write _ _ => true
  | _ => false
  end.

(** The HELP reply, as one text. *)
Definition help_lines : list ascii :=
  chars "HELP: Send SERVOANGLE (e.g., A90 or F150). Ranges:" ++ CRLF
  ++ chars " A: 0-180" ++ CRLF
  ++ chars " B: 45-90" ++ CRLF
  ++ chars " C: 0-85" ++ CRLF
  ++ chars " D: 90-180" ++ CRLF
  ++ chars " E: 0-180" ++ CRLF
  ++ chars " F: 90-180" ++ CRLF.

(** A call that the servo hardware can take: an existing servo, attached
    on its own pin, and written only angles of its safe range. *)
Definition safe_call (ev : ServoCall) : Prop :=
  match ev with
  | Attach i pin => valid_idx i ∧ pin = aget 0 SERVO_PINS i
  | Detach i => valid_idx i
  | Write i a => valid_idx i ∧ min_of i ≤ a ≤ max_of i
  end.

Definition ULONG_RANGE : Z := 4294967296.

(** What holds, besides [Inv], of the LED, of the calls made to the
    servos and of the two timers. *)
Definition Inv_io (s : State) : Prop :=
  led s = negb (activeServo s =? -1)
  ∧ Forall safe_call (servo_log s)
  ∧ 0 ≤ lastMoveMs s < ULONG_RANGE
  ∧ 0 ≤ lastInfoMs s < ULONG_RANGE.

(** The ERR line for servo [c], with its line end. *)
Definition err_line (c : Z) : list ascii :=
  chars "ERR:" ++ [name_of c] ++ chars " range " ++ dec (min_of c)
    ++ chars "-" ++ dec (max_of c) ++ CRLF.

(** The request for servo [c] and angle [a] is refused: the ERR line goes
    to the port of the command and to the primary port, and that is all. *)
Definition refused (c a : Z) (out : Port) (s : State) : Prop :=
  processCommand (request c a) out s
  = (true, print Serial (err_line c) (print out (err_line c) s)).

(** * Properties *)

(** ** Arrays and machine integers *)

Lemma int16_id z : INT_MIN ≤ z ≤ INT_MAX → int16 z = z.
Proof.
  unfold int16, INT_MIN, INT_MAX. intros H.
  rewrite Z.mod_small; lia.
Qed.

Lemma aget_aset_eq {A} (d : A) l i x :
  0 ≤ i < Z.of_nat (length l) → aget d (aset l i x) i = x.
Proof.
  intros H. unfold aget, aset.
  destruct (Z.ltb_spec i 0); [lia|].
  rewrite list_lookup_insert_eq; [done | lia].
Qed.

Lemma aget_aset_ne {A} (d : A) l i j x :
  i ≠ j → aget d (aset l i x) j = aget d l j.
Proof.
  intros H. unfold aget, aset.
  destruct (Z.ltb_spec j 0); [done|].
  destruct (Z.ltb_spec i 0); [done|].
  rewrite list_lookup_insert_ne; [done | lia].
Qed.

Lemma length_aset {A} (l : list A) i x : length (aset l i x) = length l.
Proof. unfold aset. destruct (i <? 0); [done | apply length_insert]. Qed.

Lemma aset_aget_id {A} (d : A) l i :
  0 ≤ i < Z.of_nat (length l) → aset l i (aget d l i) = l.
Proof.
  intros H. unfold aget, aset.
  destruct (Z.ltb_spec i 0); [lia|].
  destruct (lookup_lt_is_Some_2 l (Z.to_nat i)) as [y Hy]; [lia|].
  rewrite Hy. simpl. by apply list_insert_id.
Qed.

Lemma valid_idx_cases i :
  valid_idx i → i = 0 ∨ i = 1 ∨ i = 2 ∨ i = 3 ∨ i = 4 ∨ i = 5.
Proof. unfold valid_idx, NUM_SERVOS. lia. Qed.

Lemma range_of_valid i :
  valid_idx i → 0 ≤ min_of i ∧ min_of i ≤ max_of i ∧ max_of i ≤ 180.
Proof.
  intros H. destruct (valid_idx_cases i H) as [->|[->|[->|[->|[->| ->]]]]];
    vm_compute; intuition discriminate.
Qed.

(** ** Printing touches nothing but the port written to *)

Lemma print_print out a b s :
  print out b (print out a s) = print out (a ++ b) s.
Proof. destruct out; unfold print; cbn; by rewrite <- app_assoc. Qed.

Lemma println_as_print out a s : println out a s = print out (a ++ CRLF) s.
Proof. reflexivity. Qed.

Lemma print_fields out a s :
  servos (print out a s) = servos s
  ∧ currentAngles (print out a s) = currentAngles s
  ∧ targetAngles (print out a s) = targetAngles s
  ∧ moveSpeed (print out a s) = moveSpeed s
  ∧ activeServo (print out a s) = activeServo s
  ∧ lastInfoMs (print out a s) = lastInfoMs s
  ∧ lastMoveMs (print out a s) = lastMoveMs s
  ∧ btCommandBuffer (print out a s) = btCommandBuffer s
  ∧ btBufferIndex (print out a s) = btBufferIndex s
  ∧ led (print out a s) = led s
  ∧ servo_log (print out a s) = servo_log s.
Proof. destruct out; cbn; tauto. Qed.

Lemma print_bt a s :
  bt_tx (print BTSerial a s) = bt_tx s ++ a
  ∧ serial_tx (print BTSerial a s) = serial_tx s.
Proof. split; reflexivity. Qed.

Lemma print_serial a s :
  serial_tx (print Serial a s) = serial_tx s ++ a
  ∧ bt_tx (print Serial a s) = bt_tx s.
Proof. split; reflexivity. Qed.

Lemma cmd_help_print out s : cmd_help out s = print out help_text s.
Proof.
  unfold cmd_help, and_then. rewrite !println_as_print, !print_print.
  f_equal.
Qed.

Lemma cmd_status_print out s : cmd_status out s = print out (status_text s) s.
Proof.
  unfold cmd_status, and_then, status_text, current_of.
  change (Z.to_nat NUM_SERVOS) with 6%nat. cbn [for_upto].
  destruct out;
    cbn [print println with_serial_tx with_bt_tx serial_tx bt_tx
           currentAngles moveSpeed concat map];
    rewrite <- ?app_assoc; reflexivity.
Qed.

Lemma cmd_unknown_print cmdStr out s :
  cmd_unknown cmdStr out s = print out (unknown_text cmdStr) s.
Proof.
  unfold cmd_unknown, and_then, unknown_text.
  rewrite !println_as_print, !print_print.
  f_equal; by rewrite <- ?app_assoc.
Qed.

Lemma cmd_reject_print i out s :
  cmd_reject i out s
  = print Serial (err_range_text i ++ CRLF)
      (print out (err_range_text i ++ CRLF) s).
Proof. reflexivity. Qed.

(** ** Servo names *)

Lemma find_servo_sound u :
  find_servo u SERVO_NAMES 0 = -1
  ∨ (valid_idx (find_servo u SERVO_NAMES 0)
     ∧ name_of (find_servo u SERVO_NAMES 0) = u).
Proof.
  unfold SERVO_NAMES, find_servo, valid_idx, NUM_SERVOS.
  repeat match goal with
         | |- context [Ascii.eqb u ?n] =>
             destruct (Ascii.eqb_spec u n) as [->|_];
             [right; split; [lia | reflexivity] |]
         end.
  by left.
Qed.

Lemma find_servo_name c :
  valid_idx c → find_servo (name_of c) SERVO_NAMES 0 = c.
Proof.
  intros H. destruct (valid_idx_cases c H) as [->|[->|[->|[->|[->| ->]]]]];
    reflexivity.
Qed.

Lemma name_of_plain c :
  valid_idx c →
  Ascii.eqb (name_of c) NUL = false
  ∧ Ascii.eqb (name_of c) "?" = false
  ∧ Ascii.eqb (name_of c) "H" = false
  ∧ Ascii.eqb (name_of c) "G" = false.
Proof.
  intros H. destruct (valid_idx_cases c H) as [->|[->|[->|[->|[->| ->]]]]];
    repeat split; reflexivity.
Qed.

Lemma toupper_NUL c : Ascii.eqb c NUL = true → toupper c = NUL.
Proof. intros H. apply Ascii.eqb_eq in H. by subst. Qed.

(** A motion command reaches the range check. *)
Lemma processCommand_motion cmdStr c a out s :
  addresses cmdStr c a →
  processCommand cmdStr out s
  = (true,
     if (min_of c <=? a) && (a <=? max_of c)
     then cmd_accept c a out s else cmd_reject c out s).
Proof.
  intros (Hc & Hu & Hlen & Ha). unfold processCommand.
  destruct (name_of_plain c Hc) as (N0 & N1 & N2 & N3).
  destruct (Ascii.eqb (aget NUL cmdStr 0) NUL) eqn:E0.
  { apply toupper_NUL in E0. rewrite E0 in Hu. rewrite <- Hu in N0.
    discriminate. }
  rewrite Hu, N1, N2, N3. cbn [orb].
  rewrite (find_servo_name c Hc), Ha.
  replace (c =? -1) with false by (unfold valid_idx in Hc; lia).
  replace (1 <? strlen cmdStr) with true by lia.
  cbn [negb andb]. by destruct (_ && _).
Qed.

(** ** Attaching and detaching *)

Lemma for_upto_fix n i body s :
  (∀ j, i ≤ j < i + Z.of_nat n → body j s = s) → for_upto n i body s = s.
Proof.
  revert i. induction n as [|n IH]; intros i H; [done|].
  cbn [for_upto]. rewrite (H i) by lia. apply IH. intros j Hj. apply H. lia.
Qed.

Lemma detachAllExcept_id k s :
  (∀ i, valid_idx i → i ≠ k → servo_attached i s = false) →
  detachAllExcept k s = s.
Proof.
  intros H. unfold detachAllExcept. apply for_upto_fix. intros j Hj.
  destruct (Z.eqb_spec j k) as [->|Hne]; [done|].
  rewrite H; [done | | done]. unfold valid_idx, NUM_SERVOS in *. lia.
Qed.

Lemma servo_attached_attach i j pin s :
  valid_idx j → length (servos s) = 6%nat →
  servo_attached i (servo_attach j pin s)
  = if i =? j then true else servo_attached i s.
Proof.
  intros Hj Hl. unfold servo_attached, servo_attach. cbn.
  destruct (Z.eqb_spec i j) as [->|Hne].
  - rewrite aget_aset_eq; [done|]. unfold valid_idx, NUM_SERVOS in Hj. lia.
  - by rewrite aget_aset_ne.
Qed.

Lemma servo_attached_detach i j s :
  valid_idx j → length (servos s) = 6%nat →
  servo_attached i (servo_detach j s)
  = if i =? j then false else servo_attached i s.
Proof.
  intros Hj Hl. unfold servo_attached, servo_detach. cbn.
  destruct (Z.eqb_spec i j) as [->|Hne].
  - rewrite aget_aset_eq; [done|]. unfold valid_idx, NUM_SERVOS in Hj. lia.
  - by rewrite aget_aset_ne.
Qed.

Lemma Inv_attached_false s i :
  Inv s → valid_idx i → activeServo s ≠ i → servo_attached i s = false.
Proof.
  intros HI Hi Hne. destruct (servo_attached i s) eqn:E; [|done].
  apply (inv_power s HI i Hi) in E. contradiction.
Qed.

Lemma Inv_attached_true s :
  Inv s → valid_idx (activeServo s) → servo_attached (activeServo s) s = true.
Proof. intros HI Hv. by apply (inv_power s HI _ Hv). Qed.

Lemma cmd_accept_eq idx a out s :
  Inv s → valid_idx idx →
  cmd_accept idx a out s
  = with_led true
      (println Serial (ok_text idx a)
         (println out (ok_text idx a)
            (with_activeServo idx
               (with_targetAngles (aset (targetAngles s) idx a)
                  (switch_to idx s))))).
Proof.
  intros HI Hidx. unfold cmd_accept, and_then, switch_to.
  assert (Hlen := inv_servos s HI).
  destruct (Z.eqb_spec (activeServo s) idx) as [Ha|Ha].
  - subst idx. rewrite andb_false_r.
    rewrite detachAllExcept_id
      by (intros i Hi Hne; apply Inv_attached_false; [done..|congruence]).
    unfold attachIfNeeded.
    rewrite Inv_attached_true by done. done.
  - destruct (Z.eqb_spec (activeServo s) (-1)) as [Hn|Hn].
    + cbn [negb andb].
      rewrite detachAllExcept_id
        by (intros i Hi Hne; apply Inv_attached_false;
            [done..| unfold valid_idx in Hi; lia]).
      unfold attachIfNeeded.
      rewrite Inv_attached_false by done. done.
    + cbn [negb andb].
      assert (Hv : valid_idx (activeServo s))
        by (destruct (inv_active s HI); [contradiction | done]).
      rewrite Inv_attached_true by done.
      rewrite detachAllExcept_id.
      2:{ intros i Hi Hne. rewrite servo_attached_detach by done.
          destruct (Z.eqb_spec i (activeServo s)); [done|].
          apply Inv_attached_false; [done..|congruence]. }
      unfold attachIfNeeded. rewrite servo_attached_detach by done.
      replace (idx =? activeServo s) with false by lia.
      rewrite Inv_attached_false by done. done.
Qed.

(** ** The invariant *)

Lemma Inv_frame s s' :
  servos s' = servos s → currentAngles s' = currentAngles s →
  targetAngles s' = targetAngles s → moveSpeed s' = moveSpeed s →
  activeServo s' = activeServo s →
  btCommandBuffer s' = btCommandBuffer s →
  btBufferIndex s' = btBufferIndex s →
  Inv s → Inv s'.
Proof.
  intros E1 E2 E3 E4 E5 E6 E7 [].
  constructor; unfold servo_attached, current_of, target_of in *;
    rewrite ?E1, ?E2, ?E3, ?E4, ?E5, ?E6, ?E7; assumption.
Qed.

Lemma Inv_print out a s : Inv s → Inv (print out a s).
Proof. apply Inv_frame; by destruct out. Qed.

Lemma Inv_setup t : Inv (setup t boot).
Proof.
  constructor; try reflexivity.
  - by left.
  - intros i Hi.
    destruct (valid_idx_cases i Hi) as [->|[->|[->|[->|[->| ->]]]]];
      vm_compute; split; discriminate.
  - intros i Hi.
    destruct (valid_idx_cases i Hi) as [->|[->|[->|[->|[->| ->]]]]];
      vm_compute; split; discriminate.
  - intros i Hi.
    destruct (valid_idx_cases i Hi) as [->|[->|[->|[->|[->| ->]]]]];
      vm_compute; split; discriminate.
  - vm_compute. split; discriminate.
Qed.

Lemma switch_to_fields idx s :
  currentAngles (switch_to idx s) = currentAngles s
  ∧ targetAngles (switch_to idx s) = targetAngles s
  ∧ moveSpeed (switch_to idx s) = moveSpeed s
  ∧ btCommandBuffer (switch_to idx s) = btCommandBuffer s
  ∧ btBufferIndex (switch_to idx s) = btBufferIndex s
  ∧ length (servos (switch_to idx s)) = length (servos s).
Proof.
  unfold switch_to, servo_attach, servo_detach.
  destruct (_ =? idx); [done|].
  destruct (_ =? -1); cbn; rewrite ?length_aset; done.
Qed.

Lemma switch_to_attached idx i s :
  Inv s → valid_idx idx → valid_idx i →
  servo_attached i (switch_to idx s) = (i =? idx).
Proof.
  intros HI Hidx Hi. assert (Hlen := inv_servos s HI). unfold switch_to.
  destruct (Z.eqb_spec (activeServo s) idx) as [Ha|Ha].
  - destruct (Z.eqb_spec i idx) as [->|Hne].
    + subst idx. by apply Inv_attached_true.
    + apply Inv_attached_false; [done..|congruence].
  - destruct (Z.eqb_spec (activeServo s) (-1)) as [Hn|Hn].
    + rewrite servo_attached_attach by done.
      destruct (Z.eqb_spec i idx); [done|].
      apply Inv_attached_false; [done..| unfold valid_idx in Hi; lia].
    + assert (Hv : valid_idx (activeServo s))
        by (destruct (inv_active s HI); [contradiction | done]).
      rewrite servo_attached_attach;
        [| done | unfold servo_detach; cbn; by rewrite length_aset].
      destruct (Z.eqb_spec i idx); [done|].
      rewrite servo_attached_detach by done.
      destruct (Z.eqb_spec i (activeServo s)); [done|].
      apply Inv_attached_false; [done..|congruence].
Qed.

Lemma Inv_cmd_accept idx a out s :
  Inv s → valid_idx idx → min_of idx ≤ a ≤ max_of idx →
  Inv (cmd_accept idx a out s).
Proof.
  intros HI Hidx Ha. rewrite cmd_accept_eq by done.
  destruct (switch_to_fields idx s) as (F1 & F2 & F3 & F4 & F5 & F6).
  assert (Hsw : ∀ i, valid_idx i →
                 servo_attached i (switch_to idx s) = (i =? idx))
    by (intros; by apply switch_to_attached).
  destruct HI.
  assert (Hidx' : 0 ≤ idx < Z.of_nat (length (targetAngles s)))
    by (unfold valid_idx, NUM_SERVOS in Hidx; lia).
  constructor; unfold servo_attached, current_of, target_of in *;
    destruct out; cbn; rewrite ?length_aset, ?F1, ?F2, ?F3, ?F4, ?F5, ?F6;
    try assumption; try (by right).
  all: intros i Hi.
  1,2: rewrite Hsw by done; destruct (Z.eqb_spec i idx); split; congruence.
  all: destruct (Z.eq_dec idx i) as [->|Hne];
    [rewrite aget_aset_eq by done; lia
    | rewrite aget_aset_ne by done; auto].
Qed.

Lemma Inv_processCommand cmdStr out s :
  Inv s → Inv (snd (processCommand cmdStr out s)).
Proof.
  intros HI. unfold processCommand.
  destruct (Ascii.eqb _ NUL); [done|].
  destruct (_ || _); [cbn; rewrite cmd_help_print; by apply Inv_print|].
  destruct (Ascii.eqb _ "G");
    [cbn; rewrite cmd_status_print; by apply Inv_print|].
  destruct (find_servo_sound (toupper (aget NUL cmdStr 0))) as [->|[Hv _]].
  { cbn. rewrite cmd_unknown_print. by apply Inv_print. }
  destruct (negb _ && _);
    [|cbn; rewrite cmd_unknown_print; by apply Inv_print].
  destruct (_ && _) eqn:E; cbn [snd].
  - apply andb_prop in E as [E1 E2]. apply Inv_cmd_accept; [done..|lia].
  - rewrite cmd_reject_print. by do 2 apply Inv_print.
Qed.

(** ** The scheduler tick, case by case *)

Lemma move_step_idle t1 t2 s : activeServo s = -1 → move_step t1 t2 s = s.
Proof. intros H. unfold move_step. by rewrite H. Qed.

Lemma move_step_closed t1 t2 s :
  throttle_open t1 s = false → move_step t1 t2 s = s.
Proof. intros H. unfold move_step. rewrite H. by destruct (negb _). Qed.

Lemma Inv_angles_int s i :
  Inv s → valid_idx i →
  0 ≤ current_of i s ≤ 180 ∧ 0 ≤ target_of i s ≤ 180.
Proof.
  intros HI Hi. pose proof (inv_cur_range s HI i Hi).
  pose proof (inv_tgt_range s HI i Hi). pose proof (range_of_valid i Hi). lia.
Qed.

Lemma move_step_advance t1 t2 s :
  Inv s → valid_idx (activeServo s) → throttle_open t1 s = true →
  current_of (activeServo s) s ≠ target_of (activeServo s) s →
  let c := activeServo s in
  let next :=
    if current_of c s <? target_of c s
    then current_of c s + 1 else current_of c s - 1 in
  move_step t1 t2 s
  = servo_write c next
      (with_currentAngles (aset (currentAngles s) c next)
         (with_lastMoveMs (ulong t2) s)).
Proof.
  intros HI Hv Ho Hne c next. unfold move_step. rewrite Ho.
  replace (activeServo s =? -1) with false by (unfold valid_idx in Hv; lia).
  cbn [negb with_lastMoveMs activeServo currentAngles targetAngles].
  fold c. fold (current_of c s) (target_of c s).
  replace (current_of c s =? target_of c s) with false by (subst c; lia).
  cbn [negb].
  destruct (Inv_angles_int s c HI Hv) as [Hc Ht].
  assert (Hlen : 0 ≤ c < Z.of_nat (length (currentAngles s))).
  { rewrite (inv_current s HI). unfold valid_idx, NUM_SERVOS in Hv.
    subst c. lia. }
  subst next.
  destruct (Z.ltb_spec (current_of c s) (target_of c s));
    cbn [currentAngles with_currentAngles];
    rewrite aget_aset_eq by done;
    rewrite int16_id by (unfold INT_MIN, INT_MAX; lia); reflexivity.
Qed.

Lemma move_step_arrive t1 t2 s :
  Inv s → valid_idx (activeServo s) → throttle_open t1 s = true →
  current_of (activeServo s) s = target_of (activeServo s) s →
  let c := activeServo s in
  move_step t1 t2 s
  = println BTSerial (done_text c (current_of c s))
      (println Serial (done_text c (current_of c s))
         (with_led false
            (with_activeServo (-1)
               (servo_detach c (with_lastMoveMs (ulong t2) s))))).
Proof.
  intros HI Hv Ho Heq c. unfold move_step. rewrite Ho.
  replace (activeServo s =? -1) with false by (unfold valid_idx in Hv; lia).
  cbn [negb with_lastMoveMs activeServo currentAngles targetAngles].
  fold c. fold (current_of c s) (target_of c s).
  replace (current_of c s =? target_of c s) with true by (subst c; lia).
  cbn [negb].
  change (servo_attached c (with_lastMoveMs (ulong t2) s))
    with (servo_attached (activeServo s) s).
  rewrite Inv_attached_true by done. reflexivity.
Qed.

Lemma Inv_move_step t1 t2 s : Inv s → Inv (move_step t1 t2 s).
Proof.
  intros HI. destruct (inv_active s HI) as [Hn|Hv].
  { by rewrite move_step_idle. }
  destruct (throttle_open t1 s) eqn:Ho; [|by rewrite move_step_closed].
  assert (Hlen := inv_servos s HI).
  assert (Hlc := inv_current s HI).
  assert (Hc : 0 ≤ activeServo s < 6) by exact Hv.
  destruct (Z.eq_dec (current_of (activeServo s) s)
              (target_of (activeServo s) s)) as [Heq|Hne].
  - rewrite move_step_arrive by done.
    assert (Hoff : ∀ i, valid_idx i →
              attached
                (aget servo_off (aset (servos s) (activeServo s) servo_off) i)
              = false).
    { intros i Hi.
      change (servo_attached i (servo_detach (activeServo s) s) = false).
      rewrite servo_attached_detach by done.
      destruct (Z.eqb_spec i (activeServo s)); [done|].
      apply Inv_attached_false; [done..|congruence]. }
    destruct HI. constructor;
      unfold servo_attached, current_of, target_of in *; cbn;
      rewrite ?length_aset; try assumption; try (by left).
    intros i Hi. rewrite (Hoff i Hi). unfold valid_idx in Hi.
    split; [discriminate | lia].
  - rewrite move_step_advance by done.
    pose proof (inv_cur_range s HI _ Hv) as Hr.
    pose proof (inv_tgt_range s HI _ Hv) as Hr'.
    destruct HI. constructor;
      unfold servo_attached, current_of, target_of in *; cbn;
      rewrite ?length_aset; try assumption.
    intros i Hi. destruct (Z.eq_dec (activeServo s) i) as [E|E].
    + rewrite <- E. rewrite aget_aset_eq by lia.
      destruct (Z.ltb_spec (aget 0 (currentAngles s) (activeServo s))
                  (aget 0 (targetAngles s) (activeServo s))); lia.
    + rewrite aget_aset_ne by done. auto.
Qed.

Lemma Inv_idle_hint t1 t2 s : Inv s → Inv (idle_hint t1 t2 s).
Proof.
  intros HI. unfold idle_hint. destruct (_ && _); [|done].
  revert HI. by apply Inv_frame.
Qed.

Lemma Inv_bt_byte t c s : Inv s → Inv (bt_byte t c s).
Proof.
  intros HI. unfold bt_byte.
  destruct (is_eol c).
  - destruct (0 <? btBufferIndex s); [|done].
    cbn [btCommandBuffer with_btCommandBuffer].
    set (s1 := with_btCommandBuffer _ s).
    assert (H1 : Inv s1).
    { destruct HI. constructor;
        unfold servo_attached, current_of, target_of in *; cbn;
        rewrite ?length_aset; assumption. }
    apply (Inv_processCommand (btCommandBuffer s1) BTSerial) in H1.
    destruct H1. constructor;
      unfold servo_attached, current_of, target_of in *; cbn;
      try assumption. lia.
  - destruct (Z.ltb_spec (btBufferIndex s) 31); [|done].
    pose proof (inv_index s HI).
    destruct HI. constructor;
      unfold servo_attached, current_of, target_of in *; cbn;
      rewrite ?length_aset; try assumption.
    rewrite int16_id by (unfold INT_MIN, INT_MAX; lia). lia.
Qed.

Lemma reachable_Inv s : reachable s → Inv s.
Proof.
  induction 1;
    auto using Inv_setup, Inv_processCommand, Inv_bt_byte, Inv_move_step,
      Inv_idle_hint.
Qed.

Lemma Inv_exclusive s : Inv s → exclusive s.
Proof.
  intros HI. split.
  - intros i j Hi Hj Ai Aj.
    apply (inv_power s HI i Hi) in Ai. apply (inv_power s HI j Hj) in Aj.
    congruence.
  - intros c Hc Ha. split.
    + by apply (inv_power s HI c Hc).
    + intros j Hj Hne. apply Inv_attached_false; [done..|congruence].
Qed.

Lemma reachable_bt_drain clock k input s :
  reachable s → reachable (bt_drain clock k input s).
Proof.
  revert k s. induction input as [|c rest IH]; intros k s H; [done|].
  cbn [bt_drain]. apply IH. by constructor.
Qed.

Lemma reachable_loop e s : reachable s → reachable (loop e s).
Proof.
  intros H. unfold loop.
  apply reach_hint, reach_move. by apply reachable_bt_drain.
Qed.

Lemma reachable_run es s : reachable s → reachable (run es s).
Proof.
  revert s. induction es as [|e rest IH]; intros s H; [done|].
  cbn [run]. apply IH. by apply reachable_loop.
Qed.

Lemma only_printed_print out a s : only_printed s (print out a s).
Proof. apply print_fields. Qed.

Lemma only_printed_trans s1 s2 s3 :
  only_printed s1 s2 → only_printed s2 s3 → only_printed s1 s3.
Proof. unfold only_printed. intuition congruence. Qed.

(** ** The single-active-servo policy *)

(** C1: in every reachable state at most one servo is attached, and when
    [activeServo] names a servo, that servo is attached and all the others
    are not; dispatching any command, receiving any byte, any scheduler
    tick and any whole pass of [loop] lead to a state where this holds
    again. *)
Theorem single_servo_powered s :
  reachable s →
  exclusive s
  ∧ (∀ cmdStr out, exclusive (snd (processCommand cmdStr out s)))
  ∧ (∀ t c, exclusive (bt_byte t c s))
  ∧ (∀ t1 t2, exclusive (move_step t1 t2 s))
  ∧ (∀ e, exclusive (loop e s)).
Proof.
  intros H. split; [|split; [|split; [|split]]]; intros;
    apply Inv_exclusive, reachable_Inv.
  - exact H.
  - by apply reach_command.
  - by apply reach_byte.
  - by apply reach_move.
  - by apply reachable_loop.
Qed.

Lemma single_servo_powered_witness :
  let s := snd (processCommand (mem "B60") BTSerial
                  (move_step 50 50
                     (snd (processCommand (mem "A120") BTSerial
                             (setup 0 boot))))) in
  reachable s ∧ activeServo s = 1 ∧ exclusive s.
Proof.
  cbv zeta.
  assert (R : reachable
                (snd (processCommand (mem "B60") BTSerial
                        (move_step 50 50
                           (snd (processCommand (mem "A120") BTSerial
                                   (setup 0 boot))))))).
  { apply reach_command, reach_move, reach_command, reach_setup. }
  split; [exact R|]. split; [vm_compute; reflexivity|].
  exact (proj1 (single_servo_powered _ R)).
Defined.

(** ** Start-up *)

(** C9: after [setup] every current and target angle is the minimum of its
    servo, no servo is attached and none was ever attached, no servo is
    active, and the scheduler has nothing to do. *)
Theorem setup_state t :
  currentAngles (setup t boot) = minAngles
  ∧ targetAngles (setup t boot) = minAngles
  ∧ servos (setup t boot) = replicate 6 servo_off
  ∧ servo_log (setup t boot) = []
  ∧ activeServo (setup t boot) = -1
  ∧ ∀ t1 t2, move_step t1 t2 (setup t boot) = setup t boot.
Proof.
  split; [|split; [|split; [|split; [|split]]]];
    [reflexivity | reflexivity | reflexivity | reflexivity | reflexivity |].
  intros t1 t2. by apply move_step_idle.
Qed.

(** ** Rejected and unknown commands *)

(** A motion command whose number reads, with [atoi], as a value outside
    the range of its servo changes nothing but the two output streams, and
    what it prints, on the port of the command and on the primary port, is
    the ERR line with the minimum and the maximum of that servo. *)
Lemma rejected_by_parsed_value cmdStr c a out s :
  addresses cmdStr c a →
  ¬ (min_of c ≤ a ≤ max_of c) →
  processCommand cmdStr out s
  = (true, print Serial (err_line c) (print out (err_line c) s))
  ∧ only_printed s (snd (processCommand cmdStr out s)).
Proof.
  intros Hadr Hout.
  rewrite (processCommand_motion _ _ _ out s Hadr).
  replace ((min_of c <=? a) && (a <=? max_of c)) with false
    by (symmetry; apply andb_false_iff; lia).
  rewrite cmd_reject_print. cbn [snd].
  assert (E : err_range_text c ++ CRLF = err_line c).
  { unfold err_range_text, err_line. by rewrite <- !app_assoc. }
  rewrite E. split; [done|].
  eapply only_printed_trans; apply only_printed_print.
Qed.

Lemma indices_In n : ∀ i a, i ≤ a < i + Z.of_nat n → In a (indices n i).
Proof.
  induction n as [|n IH]; intros i a Ha; [lia|].
  cbn [indices]. destruct (Z.eq_dec i a) as [->|Hne]; [by left|].
  right. apply IH. lia.
Qed.

(** Printing a 16-bit integer in decimal and reading it back with [atoi]
    gives the integer. *)
Lemma dec_atoi_int a :
  INT_MIN ≤ a ≤ INT_MAX →
  atoi (dec a ++ [NUL]) = a ∧ 0 < strlen (dec a ++ [NUL]).
Proof.
  intros Ha.
  assert (Hall : forallb
            (fun z => (atoi (dec z ++ [NUL]) =? z)
                      && (0 <? strlen (dec z ++ [NUL])))
            (indices (Z.to_nat 65536) INT_MIN) = true)
    by (vm_compute; reflexivity).
  rewrite forallb_forall in Hall.
  assert (Hin : In a (indices (Z.to_nat 65536) INT_MIN)).
  { apply indices_In. rewrite Z2Nat.id by lia.
    unfold INT_MIN, INT_MAX in *. lia. }
  apply Hall in Hin. apply andb_prop in Hin as [H1 H2]. split; lia.
Qed.

(** The request for servo [c] and a 16-bit angle [a] is a motion command
    for [c] that reads as [a]. *)
Lemma request_addresses_int c a :
  valid_idx c → INT_MIN ≤ a ≤ INT_MAX → addresses (request c a) c a.
Proof.
  intros Hc Ha. destruct (dec_atoi_int a Ha) as [Hat Hlen].
  destruct (name_of_plain c Hc) as (N0 & _).
  split; [done|]. split; [|split].
  - change (aget NUL (request c a) 0) with (name_of c).
    destruct (valid_idx_cases c Hc) as [->|[->|[->|[->|[->| ->]]]]];
      reflexivity.
  - unfold strlen, request in *. cbn [cstr]. rewrite N0. cbn [length]. lia.
  - unfold request. cbn [drop]. by rewrite ?drop_0.
Qed.

(** C3, as the code has it: for every servo [c] and every requested angle
    [a] that the 16-bit [int] of the target can hold and that is outside
    the range of [c], the request changes nothing but the two output
    streams, and what it prints, on the port of the command and on the
    primary port, is the ERR line with the minimum and the maximum of
    [c]; every other spelling of the command that [atoi] reads as [a]
    (lower case, leading zeros, white space, trailing text) has the same
    result. *)
Theorem out_of_range_request_rejected c a out s :
  valid_idx c →
  INT_MIN ≤ a ≤ INT_MAX →
  ¬ (min_of c ≤ a ≤ max_of c) →
  refused c a out s
  ∧ only_printed s (snd (processCommand (request c a) out s))
  ∧ (∀ cmdStr, addresses cmdStr c a →
       processCommand cmdStr out s = processCommand (request c a) out s).
Proof.
  intros Hc Ha Hout.
  assert (Hreq := request_addresses_int c a Hc Ha).
  destruct (rejected_by_parsed_value (request c a) c a out s Hreq Hout)
    as [E P].
  split; [exact E|]. split; [exact P|].
  intros cmdStr Hadr.
  rewrite (proj1 (rejected_by_parsed_value cmdStr c a out s Hadr Hout)).
  by rewrite E.
Qed.

Lemma out_of_range_request_rejected_witness :
  valid_idx 1 ∧ INT_MIN ≤ 100 ≤ INT_MAX ∧ ¬ (min_of 1 ≤ 100 ≤ max_of 1)
  ∧ request 1 100 = mem "B100"
  ∧ addresses (mem "b +0100x") 1 100
  ∧ bt_tx (snd (processCommand (request 1 100) BTSerial (setup 0 boot)))
    = bt_tx (setup 0 boot) ++ chars "ERR:B range 45-90" ++ CRLF
  ∧ snd (processCommand (mem "b +0100x") BTSerial (setup 0 boot))
    = snd (processCommand (mem "B100") BTSerial (setup 0 boot)).
Proof.
  assert (V : valid_idx 1) by (vm_compute; split; congruence).
  assert (I : INT_MIN ≤ 100 ≤ INT_MAX) by (vm_compute; split; congruence).
  assert (B : ¬ (min_of 1 ≤ 100 ≤ max_of 1))
    by (vm_compute; intros [_ H]; by apply H).
  assert (D : addresses (mem "b +0100x") 1 100)
    by (repeat split; vm_compute; congruence).
  destruct (out_of_range_request_rejected 1 100 BTSerial (setup 0 boot) V I B)
    as (E & _ & S).
  split; [exact V|]. split; [exact I|]. split; [exact B|].
  split; [reflexivity|]. split; [exact D|]. split.
  - unfold refused in E. rewrite E. vm_compute. reflexivity.
  - by rewrite (S _ D).
Defined.

(** C3 as stated fails for a requested angle that the 16-bit [int] cannot
    hold: [atoi] reads the text 65596 as 60, so the request B65596, whose
    angle is outside 45-90, is not refused; servo B gets the target 60 and
    becomes the active servo. *)
Lemma wrapped_angle_accepted :
  valid_idx 1
  ∧ ¬ (min_of 1 ≤ 65596 ≤ max_of 1)
  ∧ request 1 65596 = mem "B65596"
  ∧ ¬ refused 1 65596 BTSerial (setup 0 boot)
  ∧ ¬ only_printed (setup 0 boot)
        (snd (processCommand (request 1 65596) BTSerial (setup 0 boot)))
  ∧ target_of 1 (snd (processCommand (request 1 65596) BTSerial (setup 0 boot)))
    = 60
  ∧ activeServo (snd (processCommand (request 1 65596) BTSerial (setup 0 boot)))
    = 1.
Proof.
  assert (A : activeServo
                (snd (processCommand (request 1 65596) BTSerial (setup 0 boot)))
              = 1) by (vm_compute; reflexivity).
  split; [vm_compute; split; congruence|].
  split; [vm_compute; intros [_ H]; by apply H|].
  split; [reflexivity|]. split.
  { unfold refused. intros E. rewrite E in A. discriminate A. }
  split.
  { intros (_ & _ & _ & _ & P & _). rewrite A in P. discriminate P. }
  split; [vm_compute; reflexivity | exact A].
Qed.

(** The servo letters are A to F in either case. *)
Lemma servo_letters ch :
  is_servo_letter ch = true ↔ In ch (chars "ABCDEFabcdef").
Proof.
  destruct ch as [[] [] [] [] [] [] [] []]; vm_compute;
    (split; [intros H; first [discriminate H | auto 15]
            | intros H; first [reflexivity
                              | repeat (destruct H as [H|H];
                                          [discriminate H|]);
                                destruct H]]).
Qed.

Lemma servo_letter_plain ch :
  is_servo_letter ch = true →
  Ascii.eqb ch NUL = false
  ∧ Ascii.eqb (toupper ch) "?" = false
  ∧ Ascii.eqb (toupper ch) "H" = false
  ∧ Ascii.eqb (toupper ch) "G" = false.
Proof.
  unfold is_servo_letter. intros H.
  destruct (find_servo_sound (toupper ch)) as [E|[Hv Hn]].
  { rewrite E in H. discriminate. }
  destruct (name_of_plain _ Hv) as (N0 & N1 & N2 & N3).
  rewrite Hn in N0, N1, N2, N3. repeat split; try assumption.
  destruct (Ascii.eqb ch NUL) eqn:E; [|done].
  apply toupper_NUL in E. rewrite E in N0. discriminate.
Qed.

(** C8: a command made of one servo letter and nothing else, in either
    case, is answered with the unknown-command error that quotes the
    letter as it was typed, and nothing else changes: no target is set and
    no servo becomes active, whatever the range of that servo. *)
Theorem bare_letter_unknown ch rest out s :
  is_servo_letter ch = true →
  processCommand (ch :: NUL :: rest) out s
  = (true,
     print out (chars "ERR:Unknown cmd '" ++ [ch] ++ chars "'" ++ CRLF) s)
  ∧ only_printed s (snd (processCommand (ch :: NUL :: rest) out s)).
Proof.
  intros H. destruct (servo_letter_plain ch H) as (N0 & N1 & N2 & N3).
  assert (E : processCommand (ch :: NUL :: rest) out s
              = (true, cmd_unknown (ch :: NUL :: rest) out s)).
  { unfold processCommand.
    change (aget NUL (ch :: NUL :: rest) 0) with ch.
    rewrite N0, N1, N2, N3. cbn [orb].
    assert (L : strlen (ch :: NUL :: rest) = 1).
    { unfold strlen. cbn [cstr]. rewrite N0. reflexivity. }
    rewrite L. change (1 <? 1) with false. by rewrite andb_false_r. }
  rewrite E, cmd_unknown_print. unfold unknown_text. cbn [cstr snd].
  rewrite N0. change (Ascii.eqb NUL NUL) with true. cbv iota.
  split; [reflexivity | apply only_printed_print].
Qed.

Lemma bare_letter_unknown_witness :
  is_servo_letter "a" = true
  ∧ min_of 0 ≤ 0 ≤ max_of 0
  ∧ snd (processCommand (mem "a") BTSerial (setup 0 boot))
    = print BTSerial (chars "ERR:Unknown cmd 'a'" ++ CRLF) (setup 0 boot).
Proof.
  split; [reflexivity|]. split; [vm_compute; split; discriminate|].
  change (mem "a") with ("a"%char :: NUL :: []).
  rewrite (proj1 (bare_letter_unknown "a" [] BTSerial (setup 0 boot)
                    eq_refl)).
  reflexivity.
Defined.

(** ** Accepted commands *)

Lemma cmd_accept_fields idx a out s :
  Inv s → valid_idx idx →
  servos (cmd_accept idx a out s) = servos (switch_to idx s)
  ∧ servo_log (cmd_accept idx a out s) = servo_log (switch_to idx s)
  ∧ currentAngles (cmd_accept idx a out s) = currentAngles s
  ∧ targetAngles (cmd_accept idx a out s) = aset (targetAngles s) idx a
  ∧ activeServo (cmd_accept idx a out s) = idx
  ∧ led (cmd_accept idx a out s) = true.
Proof.
  intros HI Hv. rewrite cmd_accept_eq by done.
  destruct (switch_to_fields idx s) as (F1 & _).
  destruct out; cbn; rewrite F1; repeat split.
Qed.

Lemma processCommand_accept cmdStr c a out s :
  addresses cmdStr c a → min_of c ≤ a ≤ max_of c →
  snd (processCommand cmdStr out s) = cmd_accept c a out s.
Proof.
  intros Hadr Hin. rewrite (processCommand_motion _ _ _ out s Hadr).
  replace ((min_of c <=? a) && (a <=? max_of c)) with true; [done|].
  symmetry. apply andb_true_iff. lia.
Qed.

Lemma addresses_valid cmdStr c a : addresses cmdStr c a → valid_idx c.
Proof. by intros (H & _). Qed.

(** C5: an in-range command for servo [c2] that arrives while another
    servo [c1] is active and short of its target detaches [c1] at once and
    attaches [c2]; [c1] keeps the angle it had reached, still short of its
    target, and [c2] is the active servo with the new target. *)
Theorem switch_abandons_motion cmdStr c1 c2 a out s :
  reachable s →
  valid_idx c1 → activeServo s = c1 → c1 ≠ c2 →
  current_of c1 s ≠ target_of c1 s →
  addresses cmdStr c2 a → min_of c2 ≤ a ≤ max_of c2 →
  let s' := snd (processCommand cmdStr out s) in
  servo_attached c1 s = true
  ∧ servo_attached c1 s' = false
  ∧ servo_log s' = servo_log s ++ [Detach c1; Attach c2 (aget 0 SERVO_PINS c2)]
  ∧ currentAngles s' = currentAngles s
  ∧ current_of c1 s' = current_of c1 s
  ∧ target_of c1 s' = target_of c1 s
  ∧ current_of c1 s' ≠ target_of c1 s'
  ∧ activeServo s' = c2
  ∧ servo_attached c2 s' = true
  ∧ target_of c2 s' = a.
Proof.
  intros HR Hc1 Hact Hne Hmid Hadr Hin s'.
  assert (HI := reachable_Inv s HR).
  assert (Hc2 := addresses_valid _ _ _ Hadr).
  subst s'. rewrite (processCommand_accept _ _ _ out s Hadr Hin).
  destruct (cmd_accept_fields c2 a out s HI Hc2)
    as (F1 & F2 & F3 & F4 & F5 & F6).
  assert (Hsw : ∀ i, valid_idx i →
            servo_attached i (cmd_accept c2 a out s) = (i =? c2)).
  { intros i Hi. unfold servo_attached. rewrite F1.
    by apply switch_to_attached. }
  assert (Hlog : servo_log (switch_to c2 s)
                 = servo_log s
                   ++ [Detach c1; Attach c2 (aget 0 SERVO_PINS c2)]).
  { unfold switch_to. rewrite Hact.
    replace (c1 =? c2) with false by lia.
    replace (c1 =? -1) with false by (unfold valid_idx in Hc1; lia).
    cbn. by rewrite <- app_assoc. }
  assert (Ht1 : target_of c1 (cmd_accept c2 a out s) = target_of c1 s).
  { unfold target_of. rewrite F4. apply aget_aset_ne. congruence. }
  assert (Hcur : current_of c1 (cmd_accept c2 a out s) = current_of c1 s).
  { unfold current_of. by rewrite F3. }
  split; [rewrite <- Hact; apply Inv_attached_true; congruence|].
  split; [rewrite Hsw by done; lia|].
  split; [by rewrite F2|].
  split; [done|]. split; [done|]. split; [done|].
  split; [congruence|]. split; [done|].
  split; [rewrite Hsw by done; lia|].
  unfold target_of. rewrite F4. apply aget_aset_eq.
  rewrite (inv_target s HI). unfold valid_idx, NUM_SERVOS in Hc2. lia.
Qed.

Lemma switch_abandons_motion_witness :
  let s := move_step 50 50
             (snd (processCommand (mem "A120") BTSerial (setup 0 boot))) in
  let s' := snd (processCommand (mem "b60") BTSerial s) in
  current_of 0 s = 1 ∧ target_of 0 s = 120
  ∧ current_of 0 s' = 1 ∧ servo_attached 0 s' = false ∧ activeServo s' = 1.
Proof.
  cbv zeta.
  set (s := move_step 50 50
              (snd (processCommand (mem "A120") BTSerial (setup 0 boot)))).
  assert (R : reachable s)
    by (apply reach_move, reach_command, reach_setup).
  assert (V : valid_idx 0) by (vm_compute; split; congruence).
  assert (A : activeServo s = 0) by (vm_compute; reflexivity).
  assert (N : (0:Z) ≠ 1) by discriminate.
  assert (M : current_of 0 s ≠ target_of 0 s) by (vm_compute; discriminate).
  assert (D : addresses (mem "b60") 1 60)
    by (repeat split; vm_compute; congruence).
  assert (I : min_of 1 ≤ 60 ≤ max_of 1) by (vm_compute; split; discriminate).
  pose proof (switch_abandons_motion (mem "b60") 0 1 60 BTSerial s
                R V A N M D I) as (_ & H2 & _ & _ & H5 & _ & _ & H8 & _).
  split; [vm_compute; reflexivity|]. split; [vm_compute; reflexivity|].
  split; [rewrite H5; vm_compute; reflexivity|].
  split; [exact H2 | exact H8].
Defined.

(** C10: an in-range command for the servo that is already active only
    replaces its target: no servo is attached or detached, the servo stays
    attached and active, and no angle and no other target changes. *)
Theorem retarget_in_place cmdStr c a out s :
  reachable s →
  activeServo s = c →
  addresses cmdStr c a → min_of c ≤ a ≤ max_of c →
  let s' := snd (processCommand cmdStr out s) in
  target_of c s' = a
  ∧ targetAngles s' = aset (targetAngles s) c a
  ∧ (∀ j, j ≠ c → target_of j s' = target_of j s)
  ∧ servo_log s' = servo_log s
  ∧ servos s' = servos s
  ∧ servo_attached c s = true
  ∧ servo_attached c s' = true
  ∧ activeServo s' = c
  ∧ currentAngles s' = currentAngles s.
Proof.
  intros HR Hact Hadr Hin s'.
  assert (HI := reachable_Inv s HR).
  assert (Hc := addresses_valid _ _ _ Hadr).
  subst s'. rewrite (processCommand_accept _ _ _ out s Hadr Hin).
  destruct (cmd_accept_fields c a out s HI Hc)
    as (F1 & F2 & F3 & F4 & F5 & F6).
  assert (Hsw : switch_to c s = s).
  { unfold switch_to. rewrite Hact. by rewrite Z.eqb_refl. }
  rewrite Hsw in F1, F2.
  assert (Hon : servo_attached c s = true).
  { rewrite <- Hact. apply Inv_attached_true; congruence. }
  split.
  { unfold target_of. rewrite F4. apply aget_aset_eq.
    rewrite (inv_target s HI). unfold valid_idx, NUM_SERVOS in Hc. lia. }
  split; [done|]. split.
  { intros j Hj. unfold target_of. rewrite F4. by apply aget_aset_ne. }
  split; [done|]. split; [done|]. split; [done|].
  split; [unfold servo_attached in *; by rewrite F1|].
  split; done.
Qed.

Lemma retarget_in_place_witness :
  let s := move_step 50 50
             (snd (processCommand (mem "A120") BTSerial (setup 0 boot))) in
  let s' := snd (processCommand (mem "a30") BTSerial s) in
  target_of 0 s = 120 ∧ target_of 0 s' = 30 ∧ servo_log s' = servo_log s.
Proof.
  cbv zeta.
  set (s := move_step 50 50
              (snd (processCommand (mem "A120") BTSerial (setup 0 boot)))).
  assert (R : reachable s)
    by (apply reach_move, reach_command, reach_setup).
  assert (A : activeServo s = 0) by (vm_compute; reflexivity).
  assert (D : addresses (mem "a30") 0 30)
    by (repeat split; vm_compute; congruence).
  assert (I : min_of 0 ≤ 30 ≤ max_of 0) by (vm_compute; split; discriminate).
  pose proof (retarget_in_place (mem "a30") 0 30 BTSerial s R A D I)
    as (H1 & _ & _ & H4 & _).
  split; [vm_compute; reflexivity|]. split; [exact H1 | exact H4].
Defined.

(** ** Stepping *)

(** C4: on a tick with the throttle open, an active servo [c] and
    [currentAngles[c]] different from [targetAngles[c]], the current angle
    moves by exactly one degree towards the target (up if the target is
    greater, down otherwise) and is written to the servo; it ends between
    its old value and the target, one degree closer, and inside the range
    of the servo; the target and the other angles are as before. *)
Theorem step_one_degree t1 t2 c s :
  reachable s →
  activeServo s = c → c ≠ -1 →
  throttle_open t1 s = true →
  current_of c s ≠ target_of c s →
  let s' := move_step t1 t2 s in
  current_of c s'
  = (if current_of c s <? target_of c s
     then current_of c s + 1 else current_of c s - 1)
  ∧ distance c s' = distance c s - 1
  ∧ Z.min (current_of c s) (target_of c s) ≤ current_of c s'
    ≤ Z.max (current_of c s) (target_of c s)
  ∧ min_of c ≤ current_of c s' ≤ max_of c
  ∧ targetAngles s' = targetAngles s
  ∧ (∀ j, j ≠ c → current_of j s' = current_of j s)
  ∧ servo_log s' = servo_log s ++ [Write c (current_of c s')]
  ∧ activeServo s' = c
  ∧ (∀ j, valid_idx j → min_of j ≤ current_of j s' ≤ max_of j).
Proof.
  intros HR Hact Hn Ho Hne s'.
  assert (HI := reachable_Inv s HR).
  assert (Hv : valid_idx (activeServo s))
    by (destruct (inv_active s HI); [congruence | done]).
  assert (Hall : ∀ j, valid_idx j →
            min_of j ≤ current_of j (move_step t1 t2 s) ≤ max_of j).
  { intros j Hj. by apply (inv_cur_range _ (Inv_move_step t1 t2 s HI)). }
  subst c s'. revert Hall. rewrite move_step_advance by done. cbv zeta.
  intros Hall.
  set (c := activeServo s) in *.
  set (next := if current_of c s <? target_of c s
               then current_of c s + 1 else current_of c s - 1).
  assert (Hlen : 0 ≤ c < Z.of_nat (length (currentAngles s))).
  { rewrite (inv_current s HI). unfold valid_idx, NUM_SERVOS in Hv.
    subst c. lia. }
  assert (Hcur : current_of c
                   (servo_write c next
                      (with_currentAngles (aset (currentAngles s) c next)
                         (with_lastMoveMs (ulong t2) s))) = next).
  { unfold current_of. cbn. by apply aget_aset_eq. }
  pose proof (inv_cur_range s HI c Hv) as Hr.
  pose proof (inv_tgt_range s HI c Hv) as Hr'.
  rewrite Hcur. unfold distance. rewrite Hcur.
  change (target_of c (servo_write c next
                         (with_currentAngles (aset (currentAngles s) c next)
                            (with_lastMoveMs (ulong t2) s))))
    with (target_of c s).
  assert (Hnext : next = current_of c s + 1 ∧ current_of c s < target_of c s
                  ∨ next = current_of c s - 1
                    ∧ target_of c s < current_of c s).
  { subst next. destruct (Z.ltb_spec (current_of c s) (target_of c s)); lia. }
  split; [done|]. split; [lia|]. split; [lia|]. split; [lia|].
  split; [done|]. split; [|split; [done|split; [done|exact Hall]]].
  intros j Hj. unfold current_of. cbn. by apply aget_aset_ne.
Qed.

Lemma step_one_degree_witness :
  let s := snd (processCommand (mem "D95") BTSerial
             (snd (processCommand (mem "D180") BTSerial (setup 0 boot)))) in
  current_of 3 s = 90 ∧ target_of 3 s = 95
  ∧ current_of 3 (move_step 20 21 s) = 91
  ∧ distance 3 (move_step 20 21 s) = 4.
Proof.
  cbv zeta.
  set (s := snd (processCommand (mem "D95") BTSerial
              (snd (processCommand (mem "D180") BTSerial (setup 0 boot))))).
  assert (R : reachable s)
    by (apply reach_command, reach_command, reach_setup).
  assert (A : activeServo s = 3) by (vm_compute; reflexivity).
  assert (N : (3:Z) ≠ -1) by discriminate.
  assert (O : throttle_open 20 s = true) by (vm_compute; reflexivity).
  assert (M : current_of 3 s ≠ target_of 3 s) by (vm_compute; discriminate).
  pose proof (step_one_degree 20 21 3 s R A N O M) as (H1 & H2 & _).
  split; [vm_compute; reflexivity|]. split; [vm_compute; reflexivity|].
  split; [rewrite H1 | rewrite H2]; vm_compute; reflexivity.
Defined.


(** ** Replies and the two ports *)

Lemma for_upto_invariant (P : State → Prop) n i body s :
  (∀ j st, P st → P (body j st)) → P s → P (for_upto n i body s).
Proof.
  intros Hb. revert i s. induction n as [|n IH]; intros i s Hs; [done|].
  cbn [for_upto]. apply IH. by apply Hb.
Qed.

Lemma detachAllExcept_tx idx s :
  bt_tx (detachAllExcept idx s) = bt_tx s
  ∧ serial_tx (detachAllExcept idx s) = serial_tx s.
Proof.
  unfold detachAllExcept.
  apply (for_upto_invariant
           (fun st => bt_tx st = bt_tx s ∧ serial_tx st = serial_tx s));
    [|done].
  intros j st Hst.
  destruct (negb (j =? idx) && servo_attached j st); exact Hst.
Qed.

Lemma attachIfNeeded_tx idx s :
  bt_tx (attachIfNeeded idx s) = bt_tx s
  ∧ serial_tx (attachIfNeeded idx s) = serial_tx s.
Proof.
  unfold attachIfNeeded.
  destruct (negb (servo_attached idx s)); split; reflexivity.
Qed.

Lemma switching_prints_nothing idx s :
  let s0 :=
    if negb (activeServo s =? -1) && negb (activeServo s =? idx)
    then
      if servo_attached (activeServo s) s
      then servo_detach (activeServo s) s else s
    else s in
  bt_tx (attachIfNeeded idx (detachAllExcept idx s0)) = bt_tx s
  ∧ serial_tx (attachIfNeeded idx (detachAllExcept idx s0)) = serial_tx s.
Proof.
  intros s0.
  assert (H0 : bt_tx s0 = bt_tx s ∧ serial_tx s0 = serial_tx s).
  { subst s0.
    destruct (negb (activeServo s =? -1) && negb (activeServo s =? idx));
      [|done].
    destruct (servo_attached (activeServo s) s); split; reflexivity. }
  destruct (attachIfNeeded_tx idx (detachAllExcept idx s0)) as [-> ->].
  destruct (detachAllExcept_tx idx s0) as [-> ->]. exact H0.
Qed.

Lemma cmd_accept_tx idx a s :
  bt_tx (cmd_accept idx a BTSerial s) = bt_tx s ++ ok_text idx a ++ CRLF
  ∧ serial_tx (cmd_accept idx a BTSerial s)
    = serial_tx s ++ ok_text idx a ++ CRLF.
Proof.
  destruct (switching_prints_nothing idx s) as [Hb Hs].
  unfold cmd_accept, and_then. cbn. by rewrite Hb, Hs.
Qed.

Lemma chars_app_nonempty (c : ascii) (txt rest : list ascii) :
  (c :: txt) ++ rest ≠ [].
Proof. discriminate. Qed.

(** C6, as the code has it: a command that arrives on the Bluetooth port
    and is not empty is always answered on that port; the answer is
    repeated on the primary port when the command is a motion command (the
    OK acknowledgement and the range error), and nothing is sent on the
    primary port for HELP, for STATUS and for an unknown command. *)
Theorem replies_by_port cmdStr s :
  aget NUL cmdStr 0 ≠ NUL →
  ∃ reply, reply ≠ []
    ∧ bt_tx (snd (processCommand cmdStr BTSerial s)) = bt_tx s ++ reply
    ∧ serial_tx (snd (processCommand cmdStr BTSerial s))
      = serial_tx s ++ (if is_motion cmdStr then reply else []).
Proof.
  intros Hne. unfold processCommand, is_motion.
  assert (Hbt : ∀ txt, txt ≠ [] →
            ∃ reply, reply ≠ []
              ∧ bt_tx (print BTSerial txt s) = bt_tx s ++ reply
              ∧ serial_tx (print BTSerial txt s) = serial_tx s ++ []).
  { intros txt Ht. exists txt. split; [done|]. split; [done|].
    cbn. by rewrite app_nil_r. }
  destruct (Ascii.eqb_spec (aget NUL cmdStr 0) NUL) as [E|_]; [done|].
  remember (toupper (aget NUL cmdStr 0)) as u eqn:Hu.
  destruct (Ascii.eqb_spec u "?") as [->|_].
  { cbn [orb snd]. rewrite cmd_help_print.
    change (find_servo "?" SERVO_NAMES 0) with (-1). cbn [Z.eqb negb andb].
    apply Hbt, chars_app_nonempty. }
  destruct (Ascii.eqb_spec u "H") as [->|_].
  { cbn [orb snd]. rewrite cmd_help_print.
    change (find_servo "H" SERVO_NAMES 0) with (-1). cbn [Z.eqb negb andb].
    apply Hbt, chars_app_nonempty. }
  cbn [orb].
  destruct (Ascii.eqb_spec u "G") as [->|_].
  { cbn [snd]. rewrite cmd_status_print.
    change (find_servo "G" SERVO_NAMES 0) with (-1). cbn [Z.eqb negb andb].
    apply Hbt, chars_app_nonempty. }
  destruct (negb (find_servo u SERVO_NAMES 0 =? -1) && (1 <? strlen cmdStr)).
  - destruct ((min_of (find_servo u SERVO_NAMES 0) <=? atoi (drop 1 cmdStr))
              && (atoi (drop 1 cmdStr) <=? max_of (find_servo u SERVO_NAMES 0)));
      cbn [snd].
    + exists (ok_text (find_servo u SERVO_NAMES 0) (atoi (drop 1 cmdStr))
              ++ CRLF).
      split; [apply chars_app_nonempty|]. apply cmd_accept_tx.
    + exists (err_range_text (find_servo u SERVO_NAMES 0) ++ CRLF).
      split; [apply chars_app_nonempty|]. rewrite cmd_reject_print.
      split; reflexivity.
  - cbn [snd]. rewrite cmd_unknown_print. apply Hbt, chars_app_nonempty.
Qed.

Lemma replies_by_port_witness :
  aget NUL (mem "G") 0 ≠ NUL
  ∧ ∃ reply, reply ≠ []
      ∧ bt_tx (snd (processCommand (mem "G") BTSerial (setup 0 boot)))
        = bt_tx (setup 0 boot) ++ reply
      ∧ serial_tx (snd (processCommand (mem "G") BTSerial (setup 0 boot)))
        = serial_tx (setup 0 boot)
          ++ (if is_motion (mem "G") then reply else []).
Proof.
  assert (N : aget NUL (mem "G") 0 ≠ NUL) by (vm_compute; discriminate).
  split; [exact N|]. exact (replies_by_port (mem "G") (setup 0 boot) N).
Defined.

(** C6 as stated fails: the STATUS reply to a command from the Bluetooth
    port is not repeated on the primary port. *)
Lemma status_not_mirrored : ¬ mirrored (mem "G") (setup 0 boot).
Proof.
  intros (reply & Hne & _ & Hs).
  assert (E : serial_tx (snd (processCommand (mem "G") BTSerial (setup 0 boot)))
              = serial_tx (setup 0 boot)) by (vm_compute; reflexivity).
  rewrite E in Hs. apply (f_equal length) in Hs.
  rewrite length_app in Hs. destruct reply; [done|]. cbn in Hs. lia.
Qed.

(** ** The command buffer *)

Lemma bt_drain_app clock k l1 l2 s :
  bt_drain clock k (l1 ++ l2) s
  = bt_drain clock (k + length l1) l2 (bt_drain clock k l1 s).
Proof.
  revert k s. induction l1 as [|c l1 IH]; intros k s.
  - cbn. by rewrite Nat.add_0_r.
  - cbn [app bt_drain length]. rewrite IH. f_equal. lia.
Qed.

(** A byte that is no line end and arrives when 31 characters are stored
    is dropped. *)
Lemma bt_byte_full t c s :
  is_eol c = false → btBufferIndex s = 31 → bt_byte t c s = s.
Proof. intros Hc Hi. unfold bt_byte. by rewrite Hc, Hi. Qed.

Lemma bt_byte_store t c s :
  is_eol c = false → 0 ≤ btBufferIndex s < 31 →
  bt_byte t c s
  = with_btBufferIndex (btBufferIndex s + 1)
      (with_btCommandBuffer
         (aset (btCommandBuffer s) (btBufferIndex s) c) s).
Proof.
  intros Hc Hi. unfold bt_byte. rewrite Hc.
  replace (btBufferIndex s <? 31) with true by lia.
  rewrite int16_id by (unfold INT_MIN, INT_MAX; lia). done.
Qed.

Lemma aset_middle {A} (pre suf : list A) x y :
  aset (pre ++ x :: suf) (Z.of_nat (length pre)) y = pre ++ y :: suf.
Proof.
  unfold aset. destruct (Z.ltb_spec (Z.of_nat (length pre)) 0); [lia|].
  rewrite Nat2Z.id, insert_app_r_alt by lia.
  by rewrite Nat.sub_diag.
Qed.

(** Bytes that are no line ends fill the buffer up to 31 characters. *)
Lemma bt_drain_fill clock cs :
  Forall (fun c => is_eol c = false) cs →
  ∀ k pre suf s,
    btCommandBuffer s = pre ++ suf →
    btBufferIndex s = Z.of_nat (length pre) →
    (length pre + length suf = 32)%nat → (length pre ≤ 31)%nat →
    bt_drain clock k cs s
    = with_btBufferIndex
        (Z.of_nat (length pre + Nat.min (length cs) (31 - length pre)))
        (with_btCommandBuffer
           (pre ++ take (31 - length pre) cs
              ++ drop (Nat.min (length cs) (31 - length pre)) suf) s).
Proof.
  induction 1 as [|c cs Hc Hcs IH]; intros k pre suf s Hb Hi Hl Hp.
  - cbn [bt_drain length Nat.min]. rewrite take_nil, Nat.add_0_r.
    rewrite drop_0. cbn [app]. rewrite <- Hb, <- Hi. by destruct s.
  - cbn [bt_drain].
    destruct (Nat.eq_dec (length pre) 31%nat) as [E|E].
    + rewrite bt_byte_full by (done || lia).
      rewrite (IH (S k) pre suf s Hb Hi Hl Hp).
      rewrite E. by rewrite !Nat.sub_diag, !Nat.min_0_r.
    + destruct suf as [|x suf]; [cbn in Hl; lia|].
      rewrite bt_byte_store by (done || lia).
      rewrite Hb, Hi, aset_middle.
      rewrite (IH (S k) (pre ++ [c]) suf);
        [| cbn; by rewrite <- app_assoc
         | cbn; rewrite length_app; cbn; lia
         | rewrite length_app; cbn in *; lia
         | rewrite length_app; cbn; lia ].
      rewrite length_app. cbn [length].
      replace (31 - length pre)%nat with (S (31 - (length pre + 1)))%nat
        by lia.
      cbn [take drop Nat.min length].
      rewrite <- !app_assoc. cbn [app].
      replace (length pre + S (Nat.min (length cs) (31 - (length pre + 1))))%nat
        with (length pre + 1
              + Nat.min (length cs) (31 - (length pre + 1)))%nat by lia.
      reflexivity.
Qed.

(** C7: forty bytes that are no line ends, received with an empty buffer
    and followed by a line end, lead to exactly one call of
    [processCommand], on the buffer that holds the first 31 of them and
    the terminating NUL; the forty bytes themselves only fill the buffer,
    and every byte that is no line end and arrives while 31 characters are
    stored leaves the whole state, buffer and index included, as it is. *)
Theorem long_line_truncated clock k cs eol s :
  length cs = 40%nat →
  Forall (fun c => is_eol c = false) cs →
  is_eol eol = true →
  btBufferIndex s = 0 → length (btCommandBuffer s) = 32%nat →
  let cmd := take 31 cs ++ [NUL] in
  bt_drain clock k cs s
  = with_btBufferIndex 31
      (with_btCommandBuffer
         (take 31 cs ++ drop 31 (btCommandBuffer s)) s)
  ∧ bt_drain clock k (cs ++ [eol]) s
    = with_lastInfoMs (ulong (clock (k + 40)%nat))
        (with_btBufferIndex 0
           (snd (processCommand cmd BTSerial
                   (with_btCommandBuffer cmd (with_btBufferIndex 31 s)))))
  ∧ (∀ t c st, is_eol c = false → btBufferIndex st = 31 →
       bt_byte t c st = st).
Proof.
  intros Hlen Hcs Heol Hi Hb cmd.
  assert (Hfill : bt_drain clock k cs s
                  = with_btBufferIndex 31
                      (with_btCommandBuffer
                         (take 31 cs ++ drop 31 (btCommandBuffer s)) s)).
  { rewrite (bt_drain_fill clock cs Hcs k [] (btCommandBuffer s) s);
      [| done | done | cbn; lia | cbn; lia].
    cbn [length app Nat.add Nat.sub]. rewrite Hlen. reflexivity. }
  split; [exact Hfill|]. split; [|intros; by apply bt_byte_full].
  rewrite bt_drain_app, Hfill, Hlen. cbn [bt_drain].
  unfold bt_byte. rewrite Heol.
  cbn [btBufferIndex with_btBufferIndex btCommandBuffer with_btCommandBuffer].
  change (0 <? 31) with true. cbv iota.
  assert (Hcmd : aset (take 31 cs ++ drop 31 (btCommandBuffer s)) 31 NUL
                 = cmd).
  { destruct (drop 31 (btCommandBuffer s)) as [|x [|y r]] eqn:Ed.
    - apply (f_equal length) in Ed. rewrite length_drop in Ed.
      cbn in Ed. lia.
    - assert (L : length (take 31 cs) = 31%nat)
        by (rewrite length_take; lia).
      replace 31 with (Z.of_nat (length (take 31 cs))) by lia.
      apply aset_middle.
    - apply (f_equal length) in Ed. rewrite length_drop in Ed.
      cbn in Ed. lia. }
  rewrite Hcmd. reflexivity.
Qed.

Lemma long_line_truncated_witness :
  let cs := chars "A12xxxxxxxxxxxxxxxxxxxxxxxxxxxxxxxxxxxxx" in
  length cs = 40%nat
  ∧ bt_tx (bt_drain (fun _ => 7) 0 (cs ++ [LF]) (setup 0 boot))
    = bt_tx (setup 0 boot) ++ chars "OK:A->12 (range 0-180)" ++ CRLF
  ∧ cstr (btCommandBuffer (bt_drain (fun _ => 7) 0 (cs ++ [LF]) (setup 0 boot)))
    = chars "A12xxxxxxxxxxxxxxxxxxxxxxxxxxxx".
Proof.
  cbv zeta.
  set (cs := chars "A12xxxxxxxxxxxxxxxxxxxxxxxxxxxxxxxxxxxxx").
  assert (L : length cs = 40%nat) by reflexivity.
  assert (F : Forall (fun c => is_eol c = false) cs)
    by (vm_compute; repeat constructor).
  assert (E : is_eol LF = true) by reflexivity.
  assert (I : btBufferIndex (setup 0 boot) = 0) by reflexivity.
  assert (B : length (btCommandBuffer (setup 0 boot)) = 32%nat)
    by reflexivity.
  pose proof (long_line_truncated (fun _ => 7) 0%nat cs LF (setup 0 boot)
                L F E I B) as (_ & H & _).
  split; [exact L|]. rewrite H. split; vm_compute; reflexivity.
Defined.

(** ** Completion of a motion *)

Ltac fields :=
  cbn [servos currentAngles targetAngles moveSpeed activeServo lastInfoMs
       lastMoveMs btCommandBuffer btBufferIndex serial_tx bt_tx led
       servo_log with_servos with_currentAngles with_targetAngles
       with_activeServo with_lastInfoMs with_lastMoveMs
       with_btCommandBuffer with_btBufferIndex with_serial_tx with_bt_tx
       with_led with_servo_log print println servo_detach servo_attach
       servo_write].

Lemma loop_quiet e s :
  quiet e →
  loop e s = idle_hint (t_idle e) (t_hint e)
               (move_step (t_gate e) (t_step e) s).
Proof. intros H. unfold loop. by rewrite H. Qed.

Lemma idle_hint_active t1 t2 s :
  activeServo s ≠ -1 → idle_hint t1 t2 s = s.
Proof.
  intros H. unfold idle_hint.
  replace (activeServo s =? -1) with false by lia. done.
Qed.

Lemma moving_distance c a s :
  moving c a s → distance c s = Z.abs (a - current_of c s).
Proof. intros (_ & _ & _ & Ht). unfold distance. by rewrite Ht. Qed.

Lemma tick_waiting c a e s :
  moving c a s → quiet e → throttle_open (t_gate e) s = false →
  loop e s = s.
Proof.
  intros (HI & Hv & Ha & Ht) Hq Ho.
  rewrite loop_quiet, move_step_closed by done.
  apply idle_hint_active. unfold valid_idx in Hv. lia.
Qed.

Lemma tick_stepping c a e s :
  moving c a s → quiet e → throttle_open (t_gate e) s = true →
  current_of c s ≠ a →
  moving c a (loop e s)
  ∧ distance c (loop e s) = distance c s - 1
  ∧ bt_tx (loop e s) = bt_tx s
  ∧ serial_tx (loop e s) = serial_tx s.
Proof.
  intros (HI & Hv & Ha & Ht) Hq Ho Hne.
  assert (HI' : Inv (loop e s)).
  { rewrite loop_quiet by done. by apply Inv_idle_hint, Inv_move_step. }
  revert HI'. rewrite loop_quiet by done. subst c.
  rewrite move_step_advance by (done || congruence). cbv zeta.
  set (c := activeServo s) in *.
  set (next := if current_of c s <? target_of c s
               then current_of c s + 1 else current_of c s - 1).
  rewrite idle_hint_active by (cbn; unfold valid_idx in Hv; lia).
  intros HI'.
  assert (Hlen : 0 ≤ c < Z.of_nat (length (currentAngles s))).
  { rewrite (inv_current s HI). unfold valid_idx, NUM_SERVOS in Hv. lia. }
  split; [split; [exact HI' | split; [exact Hv | split; [reflexivity | exact Ht]]]|].
  split; [|split; reflexivity].
  unfold distance, current_of at 1, target_of at 1. cbn.
  rewrite aget_aset_eq by done. fold (target_of c s).
  subst next. destruct (Z.ltb_spec (current_of c s) (target_of c s)); lia.
Qed.

Lemma run_moving c a es :
  Forall quiet es →
  ∀ s, moving c a s →
    Z.of_nat (throttled_ticks es s) ≤ distance c s →
    moving c a (run es s)
    ∧ distance c (run es s) = distance c s - Z.of_nat (throttled_ticks es s)
    ∧ bt_tx (run es s) = bt_tx s
    ∧ serial_tx (run es s) = serial_tx s.
Proof.
  induction 1 as [|e es Hq Hes IH]; intros s Hm Hle.
  - cbn [run throttled_ticks]. split; [done|]. split; [lia|]. by split.
  - cbn [run throttled_ticks] in *.
    destruct (throttle_open (t_gate e) s) eqn:Ho.
    + assert (Hne : current_of c s ≠ a).
      { intros E. rewrite (moving_distance c a s Hm), E in Hle.
        rewrite Z.sub_diag in Hle. cbn in Hle. lia. }
      destruct (tick_stepping c a e s Hm Hq Ho Hne) as (Hm' & Hd & Hb & Hs).
      destruct (IH (loop e s) Hm') as (M & D & B & S'); [lia|].
      split; [done|]. split; [lia|]. split; congruence.
    + rewrite (tick_waiting c a e s Hm Hq Ho) in *.
      destruct (IH s Hm) as (M & D & B & S'); [lia|].
      split; [done|]. split; [lia|]. by split.
Qed.

Lemma tick_arrival c a e s :
  moving c a s → quiet e → throttle_open (t_gate e) s = true →
  current_of c s = a →
  current_of c (loop e s) = a
  ∧ activeServo (loop e s) = -1
  ∧ servo_attached c (loop e s) = false
  ∧ servo_log (loop e s) = servo_log s ++ [Detach c]
  ∧ led (loop e s) = false
  ∧ ∃ tail, (tail = [] ∨ tail = ready_text ++ CRLF)
      ∧ bt_tx (loop e s) = bt_tx s ++ done_text c a ++ CRLF ++ tail
      ∧ serial_tx (loop e s) = serial_tx s ++ done_text c a ++ CRLF ++ tail.
Proof.
  intros (HI & Hv & Ha & Ht) Hq Ho Hcur.
  rewrite loop_quiet by done. subst c.
  rewrite move_step_arrive by (done || congruence). cbv zeta.
  set (c := activeServo s) in *. rewrite Hcur.
  assert (Hoff : attached (aget servo_off (aset (servos s) c servo_off) c)
                 = false).
  { rewrite aget_aset_eq; [done|]. rewrite (inv_servos s HI).
    unfold valid_idx, NUM_SERVOS in Hv. lia. }
  unfold idle_hint.
  destruct ((activeServo _ =? -1) && (5000 <? ulong _)).
  - unfold servo_attached, current_of in *. fields.
    repeat split; try done.
    exists (ready_text ++ CRLF). split; [by right|].
    split; by rewrite <- !app_assoc.
  - unfold servo_attached, current_of in *. fields.
    repeat split; try done.
    exists []. split; [by left|]. by rewrite !app_nil_r.
Qed.

Lemma throttle_opens s :
  Inv s → throttle_open (lastMoveMs s + 20) s = true.
Proof.
  intros HI. unfold throttle_open, ulong. rewrite (inv_speed s HI).
  rewrite Zminus_mod_idemp_l.
  replace (lastMoveMs s + 20 - lastMoveMs s) with 20 by lia. reflexivity.
Qed.

Lemma run_exists c a n :
  ∀ s, moving c a s → distance c s = Z.of_nat n →
    ∃ es, Forall quiet es ∧ length es = n ∧ throttled_ticks es s = n.
Proof.
  induction n as [|n IH]; intros s Hm Hd.
  - exists []. by repeat split.
  - set (e := quiet_env (lastMoveMs s + 20)).
    assert (Hq : quiet e) by reflexivity.
    assert (Ho : throttle_open (t_gate e) s = true)
      by (apply throttle_opens, Hm).
    assert (Hne : current_of c s ≠ a).
    { intros E. rewrite (moving_distance c a s Hm), E, Z.sub_diag in Hd.
      cbn in Hd. lia. }
    destruct (tick_stepping c a e s Hm Hq Ho Hne) as (Hm' & Hd' & _).
    destruct (IH (loop e s) Hm') as (es & Hes & Hl & Ht); [lia|].
    exists (e :: es). split; [by constructor|].
    split; [cbn; lia|]. cbn [throttled_ticks]. rewrite Ho, Ht. done.
Qed.

Lemma accepted_is_moving cmdStr c a out s :
  Inv s → addresses cmdStr c a → min_of c ≤ a ≤ max_of c →
  moving c a (snd (processCommand cmdStr out s))
  ∧ current_of c (snd (processCommand cmdStr out s)) = current_of c s.
Proof.
  intros HI Hadr Hin.
  assert (Hc := addresses_valid _ _ _ Hadr).
  assert (HI' := Inv_processCommand cmdStr out s HI).
  revert HI'. rewrite (processCommand_accept _ _ _ out s Hadr Hin).
  intros HI'.
  destruct (cmd_accept_fields c a out s HI Hc)
    as (F1 & F2 & F3 & F4 & F5 & F6).
  split; [|unfold current_of; by rewrite F3].
  split; [done|]. split; [done|]. split; [done|].
  unfold target_of. rewrite F4. apply aget_aset_eq.
  rewrite (inv_target s HI). unfold valid_idx, NUM_SERVOS in Hc. lia.
Qed.

(** C2: after an in-range motion command for servo [c] with angle [a] was
    accepted, and as long as no further byte arrives, every pass of [loop]
    that finds the throttle open brings [currentAngles[c]] one degree
    closer to [a] and the other passes change nothing; so after exactly
    [|a - currentAngles[c]|] such passes the angle is [a], and the next
    pass with the throttle open detaches [c], clears [activeServo] and
    prints the DONE line for [c] and [a] on both ports (followed by the
    idle hint when that is due).  Passes that open the throttle always
    exist, so the motion completes after finitely many of them. *)
Theorem motion_completes cmdStr c a out s :
  reachable s →
  addresses cmdStr c a → min_of c ≤ a ≤ max_of c →
  let s1 := snd (processCommand cmdStr out s) in
  let d := Z.abs (a - current_of c s) in
  (∀ es, Forall quiet es → Z.of_nat (throttled_ticks es s1) ≤ d →
     activeServo (run es s1) = c
     ∧ servo_attached c (run es s1) = true
     ∧ target_of c (run es s1) = a
     ∧ distance c (run es s1) = d - Z.of_nat (throttled_ticks es s1)
     ∧ bt_tx (run es s1) = bt_tx s1
     ∧ serial_tx (run es s1) = serial_tx s1)
  ∧ (∀ es e, Forall quiet es → quiet e →
       Z.of_nat (throttled_ticks es s1) = d →
       throttle_open (t_gate e) (run es s1) = true →
       current_of c (run es s1) = a
       ∧ current_of c (loop e (run es s1)) = a
       ∧ servo_attached c (loop e (run es s1)) = false
       ∧ activeServo (loop e (run es s1)) = -1
       ∧ ∃ tail, (tail = [] ∨ tail = ready_text ++ CRLF)
           ∧ bt_tx (loop e (run es s1))
             = bt_tx s1 ++ done_text c a ++ CRLF ++ tail
           ∧ serial_tx (loop e (run es s1))
             = serial_tx s1 ++ done_text c a ++ CRLF ++ tail)
  ∧ (∃ es e, Forall quiet es ∧ quiet e
       ∧ Z.of_nat (length es) = d
       ∧ Z.of_nat (throttled_ticks es s1) = d
       ∧ throttle_open (t_gate e) (run es s1) = true).
Proof.
  intros HR Hadr Hin s1 d.
  assert (HI := reachable_Inv s HR).
  destruct (accepted_is_moving cmdStr c a out s HI Hadr Hin) as [Hm Hcur].
  fold s1 in Hm, Hcur.
  assert (Hd : distance c s1 = d).
  { rewrite (moving_distance c a s1 Hm), Hcur. done. }
  assert (Hzero : ∀ st, moving c a st → distance c st = 0 →
            current_of c st = a).
  { intros st Hst H0. rewrite (moving_distance c a st Hst) in H0. lia. }
  split; [|split].
  - intros es Hes Hle.
    destruct (run_moving c a es Hes s1 Hm) as (M & D & B & S'); [lia|].
    destruct M as (HI2 & Hv & Ha & Ht).
    split; [done|]. split.
    { rewrite <- Ha. apply Inv_attached_true; congruence. }
    split; [done|]. split; [lia|]. by split.
  - intros es e Hes Hq Hn Ho.
    destruct (run_moving c a es Hes s1 Hm) as (M & D & B & S'); [lia|].
    assert (Ha : current_of c (run es s1) = a) by (apply Hzero; [done|lia]).
    destruct (tick_arrival c a e (run es s1) M Hq Ho Ha)
      as (A1 & A2 & A3 & _ & _ & tail & T & Tb & Ts).
    split; [done|]. split; [done|]. split; [done|]. split; [done|].
    exists tail. split; [done|]. split; congruence.
  - destruct (run_exists c a (Z.to_nat d) s1 Hm) as (es & Hes & Hl & Ht).
    { rewrite Hd. unfold d. lia. }
    destruct (run_moving c a es Hes s1 Hm) as (M & _); [rewrite Ht; lia|].
    exists es, (quiet_env (lastMoveMs (run es s1) + 20)).
    split; [done|]. split; [reflexivity|].
    split; [unfold d in *; lia|]. split; [unfold d in *; lia|].
    apply throttle_opens, M.
Qed.

Lemma motion_completes_witness :
  let s1 := snd (processCommand (mem "A3") BTSerial (setup 0 boot)) in
  let es := [quiet_env 20; quiet_env 30; quiet_env 40; quiet_env 60] in
  throttled_ticks es s1 = 3%nat
  ∧ current_of 0 (run es s1) = 3
  ∧ activeServo (loop (quiet_env 80) (run es s1)) = -1
  ∧ bt_tx (loop (quiet_env 80) (run es s1))
    = bt_tx s1 ++ chars "DONE:A=3" ++ CRLF.
Proof.
  cbv zeta.
  set (s1 := snd (processCommand (mem "A3") BTSerial (setup 0 boot))).
  set (es := [quiet_env 20; quiet_env 30; quiet_env 40; quiet_env 60]).
  assert (R : reachable (setup 0 boot)) by apply reach_setup.
  assert (D : addresses (mem "A3") 0 3)
    by (repeat split; vm_compute; congruence).
  assert (I : min_of 0 ≤ 3 ≤ max_of 0) by (vm_compute; split; discriminate).
  assert (Q : Forall quiet es) by (repeat constructor).
  assert (Q' : quiet (quiet_env 80)) by reflexivity.
  assert (N : Z.of_nat (throttled_ticks es s1)
              = Z.abs (3 - current_of 0 (setup 0 boot)))
    by (vm_compute; reflexivity).
  assert (O : throttle_open (t_gate (quiet_env 80)) (run es s1) = true)
    by (vm_compute; reflexivity).
  pose proof (motion_completes (mem "A3") 0 3 BTSerial (setup 0 boot) R D I)
    as (_ & H & _).
  destruct (H es (quiet_env 80) Q Q' N O) as (H1 & _ & _ & H4 & _).
  split; [vm_compute; reflexivity|]. split; [exact H1|].
  split; [exact H4|]. vm_compute. reflexivity.
Defined.

(** ** Every servo and every angle in its range has a command *)

Lemma addresses_b_sound cmdStr c a :
  addresses_b cmdStr c a = true → addresses cmdStr c a.
Proof.
  unfold addresses_b, addresses, valid_idx. intros H.
  repeat (apply andb_prop in H as [H ?]).
  repeat split; try lia. by apply Ascii.eqb_eq.
Qed.

Lemma request_addresses c a :
  valid_idx c → min_of c ≤ a ≤ max_of c → addresses (request c a) c a.
Proof.
  intros Hc Ha. apply addresses_b_sound.
  assert (Hall : forallb
            (fun i => forallb
               (fun n => addresses_b (request (Z.of_nat i) (Z.of_nat n))
                           (Z.of_nat i) (Z.of_nat n))
               (seq 0 181))
            (seq 0 6) = true) by (vm_compute; reflexivity).
  pose proof (range_of_valid c Hc) as Hr.
  rewrite forallb_forall in Hall.
  specialize (Hall (Z.to_nat c)). rewrite forallb_forall in Hall.
  assert (Hi : In (Z.to_nat c) (seq 0 6))
    by (apply in_seq; unfold valid_idx, NUM_SERVOS in Hc; lia).
  assert (Hn : In (Z.to_nat a) (seq 0 181)) by (apply in_seq; lia).
  specialize (Hall Hi (Z.to_nat a) Hn).
  rewrite !Z2Nat.id in Hall by (unfold valid_idx in Hc; lia). exact Hall.
Qed.

Example request_A120 : request 0 120 = mem "A120".
Proof. reflexivity. Qed.

Example session_A3 :
  let s := run [line_env "A3" 100; quiet_env 120; quiet_env 140;
                quiet_env 160; quiet_env 180] (setup 0 boot) in
  bt_tx s
  = bt_tx (setup 0 boot) ++ chars "OK:A->3 (range 0-180)" ++ CRLF
      ++ chars "DONE:A=3" ++ CRLF
  ∧ servo_log s = [Attach 0 4; Write 0 1; Write 0 2; Write 0 3; Detach 0]
  ∧ activeServo s = -1.
Proof. vm_compute. auto. Qed.

Example unknown_Z9 :
  bt_tx (snd (processCommand (mem "Z9") BTSerial (setup 0 boot)))
  = bt_tx (setup 0 boot) ++ chars "ERR:Unknown cmd 'Z9'" ++ CRLF.
Proof. vm_compute. reflexivity. Qed.

(** * Further properties of the helpers *)

Ltac bool_cases :=
  repeat match goal with
         | |- context [?a <=? ?b] => destruct (Z.leb_spec a b)
         | |- context [?a <? ?b] => destruct (Z.ltb_spec a b)
         | |- context [?a =? ?b] => destruct (Z.eqb_spec a b)
         end;
  cbn [negb andb orb]; rewrite ?andb_false_r, ?andb_true_r;
  try reflexivity; try lia.

Lemma aget_aset_default {A} (d : A) l i : aget d (aset l i d) i = d.
Proof.
  unfold aget, aset. destruct (Z.ltb_spec i 0); [done|].
  destruct (Nat.lt_ge_cases (Z.to_nat i) (length l)).
  - by rewrite list_lookup_insert_eq.
  - rewrite list_insert_ge by done. by rewrite lookup_ge_None_2.
Qed.

Lemma servo_attached_detach_any i j s :
  servo_attached j (servo_detach i s)
  = if j =? i then false else servo_attached j s.
Proof.
  unfold servo_attached, servo_detach. fields.
  destruct (Z.eqb_spec j i) as [->|Hne].
  - by rewrite aget_aset_default.
  - by rewrite aget_aset_ne.
Qed.

Lemma servo_attached_range i s :
  servo_attached i s = true → 0 ≤ i < Z.of_nat (length (servos s)).
Proof.
  unfold servo_attached, aget. destruct (Z.ltb_spec i 0); [done|].
  destruct (servos s !! Z.to_nat i) eqn:E; [|done].
  apply lookup_lt_Some in E. lia.
Qed.

Lemma only_switched_refl s : only_switched s s.
Proof. by repeat split. Qed.

Lemma only_switched_trans s1 s2 s3 :
  only_switched s1 s2 → only_switched s2 s3 → only_switched s1 s3.
Proof. unfold only_switched. intuition congruence. Qed.

Lemma only_switched_detach i s : only_switched s (servo_detach i s).
Proof.
  unfold only_switched, servo_detach. fields.
  rewrite length_aset. by repeat split.
Qed.

Lemma only_switched_attach i pin s : only_switched s (servo_attach i pin s).
Proof.
  unfold only_switched, servo_attach. fields.
  rewrite length_aset. by repeat split.
Qed.

Lemma filter_iff_on {A} (P1 P2 : A → Prop)
    `{!∀ x, Decision (P1 x), !∀ x, Decision (P2 x)} (l : list A) :
  (∀ x, x ∈ l → P1 x ↔ P2 x) → filter P1 l = filter P2 l.
Proof.
  induction l as [|a l IH]; intros Hiff; [done|].
  assert (Ha : P1 a ↔ P2 a) by (apply Hiff; by left).
  assert (Hl : filter P1 l = filter P2 l)
    by (apply IH; intros x Hx; apply Hiff; by right).
  rewrite !filter_cons, Hl.
  destruct (decide (P1 a)), (decide (P2 a)); tauto.
Qed.

Lemma indices_ge n : ∀ i j, j ∈ indices n i → i ≤ j.
Proof.
  induction n as [|n IH]; intros i j Hj; cbn [indices] in Hj.
  - by apply elem_of_nil in Hj.
  - apply elem_of_cons in Hj as [->|Hj]; [lia|]. apply IH in Hj. lia.
Qed.

(** The loop of [detachAllExcept], for any number of rounds. *)
Lemma detach_loop keepIdx n :
  ∀ i s,
    let s' :=
      for_upto n i
        (fun i st =>
           if negb (i =? keepIdx) && servo_attached i st
           then servo_detach i st else st) s in
    (∀ j, servo_attached j s'
          = servo_attached j s
            && negb ((i <=? j) && (j <? i + Z.of_nat n) && negb (j =? keepIdx)))
    ∧ servo_log s'
      = servo_log s
        ++ map Detach
             (filter (fun j => negb (j =? keepIdx) && servo_attached j s = true)
                (indices n i))
    ∧ only_switched s s'.
Proof.
  induction n as [|n IH]; intros i s; cbv zeta.
  - cbn [for_upto indices]. split; [|split].
    + intros j. destruct (servo_attached j s); [|done]. bool_cases.
    + by rewrite filter_nil, app_nil_r.
    + apply only_switched_refl.
  - cbn [for_upto indices].
    set (st := if negb (i =? keepIdx) && servo_attached i s
               then servo_detach i s else s).
    destruct (IH (i + 1) st) as (Ha & Hl & Hf).
    assert (Hst : ∀ j, servo_attached j st
                       = servo_attached j s
                         && negb ((j =? i) && negb (i =? keepIdx))).
    { intros j. subst st.
      destruct (Z.eqb_spec i keepIdx) as [->|Hk]; cbn [negb andb].
      - by rewrite andb_false_r, andb_true_r.
      - destruct (servo_attached i s) eqn:Ei.
        + rewrite servo_attached_detach_any.
          destruct (Z.eqb_spec j i); cbn [negb andb];
            by rewrite ?andb_false_r, ?andb_true_r.
        + destruct (Z.eqb_spec j i) as [->|]; cbn [negb andb];
            by rewrite ?Ei, ?andb_true_r. }
    split; [|split].
    + intros j. rewrite Ha, Hst.
      destruct (servo_attached j s); cbn [andb]; [|done]. bool_cases.
    + rewrite Hl. rewrite filter_cons.
      assert (Hrest : filter (fun j => negb (j =? keepIdx)
                                       && servo_attached j st = true)
                        (indices n (i + 1))
                    = filter (fun j => negb (j =? keepIdx)
                                       && servo_attached j s = true)
                        (indices n (i + 1))).
      { apply filter_iff_on. intros j Hj. apply indices_ge in Hj.
        rewrite Hst. replace (j =? i) with false by lia.
        by rewrite andb_true_r. }
      rewrite Hrest. subst st.
      destruct (negb (i =? keepIdx) && servo_attached i s) eqn:Ec.
      * rewrite decide_True by done. unfold servo_detach. fields.
        by rewrite <- app_assoc.
      * rewrite decide_False by done. done.
    + eapply only_switched_trans; [|exact Hf]. subst st.
      destruct (_ && _); [apply only_switched_detach|apply only_switched_refl].
Qed.

Lemma detachAllExcept_effect keepIdx s :
  (∀ j, servo_attached j (detachAllExcept keepIdx s)
        = servo_attached j s
          && ((j =? keepIdx) || negb ((0 <=? j) && (j <? NUM_SERVOS))))
  ∧ servo_log (detachAllExcept keepIdx s)
    = servo_log s ++ map Detach (to_detach keepIdx s)
  ∧ only_switched s (detachAllExcept keepIdx s).
Proof.
  destruct (detach_loop keepIdx (Z.to_nat NUM_SERVOS) 0 s) as (Ha & Hl & Hf).
  split; [|split; [exact Hl | exact Hf]].
  intros j. unfold detachAllExcept. rewrite Ha.
  change (0 + Z.of_nat (Z.to_nat NUM_SERVOS)) with NUM_SERVOS.
  destruct (servo_attached j s); [|done].
  destruct ((0 <=? j) && (j <? NUM_SERVOS)), (j =? keepIdx); reflexivity.
Qed.

(** X1: whatever the state, [detachAllExcept keepIdx] leaves servo
    [keepIdx] as it is and detaches every other one of the six servos; it
    calls [detach] exactly on those it found attached, in index order, and
    touches nothing but the servo objects. *)
Theorem detachAllExcept_spec keepIdx s :
  (∀ j, servo_attached j (detachAllExcept keepIdx s)
        = servo_attached j s
          && ((j =? keepIdx) || negb ((0 <=? j) && (j <? NUM_SERVOS))))
  ∧ servo_log (detachAllExcept keepIdx s)
    = servo_log s ++ map Detach (to_detach keepIdx s)
  ∧ only_switched s (detachAllExcept keepIdx s).
Proof. apply detachAllExcept_effect. Qed.

Lemma attachIfNeeded_attached idx s :
  0 ≤ idx < Z.of_nat (length (servos s)) →
  servo_attached idx (attachIfNeeded idx s) = true.
Proof.
  intros Hr. unfold attachIfNeeded.
  destruct (servo_attached idx s) eqn:E; [done|]. cbn [negb].
  unfold servo_attached, servo_attach. fields. by rewrite aget_aset_eq.
Qed.

Lemma attachIfNeeded_other idx j s :
  j ≠ idx →
  servo_attached j (attachIfNeeded idx s) = servo_attached j s.
Proof.
  intros Hne. unfold attachIfNeeded.
  destruct (servo_attached idx s); [done|]. cbn [negb].
  unfold servo_attached, servo_attach. fields. by rewrite aget_aset_ne.
Qed.

Lemma only_switched_attachIfNeeded idx s :
  only_switched s (attachIfNeeded idx s).
Proof.
  unfold attachIfNeeded.
  destruct (negb _); [apply only_switched_attach | apply only_switched_refl].
Qed.

(** X2: for an index inside the servo array, [attachIfNeeded] leaves the
    servo attached and the other servos as they were; it calls [attach],
    once and with the pin of that servo, only when the servo was detached,
    so calling it a second time changes nothing. *)
Theorem attachIfNeeded_spec idx s :
  0 ≤ idx < Z.of_nat (length (servos s)) →
  servo_attached idx (attachIfNeeded idx s) = true
  ∧ (∀ j, j ≠ idx →
       servo_attached j (attachIfNeeded idx s) = servo_attached j s)
  ∧ servo_log (attachIfNeeded idx s)
    = servo_log s
      ++ (if servo_attached idx s then []
          else [Attach idx (aget 0 SERVO_PINS idx)])
  ∧ attachIfNeeded idx (attachIfNeeded idx s) = attachIfNeeded idx s
  ∧ only_switched s (attachIfNeeded idx s).
Proof.
  intros Hr.
  split; [by apply attachIfNeeded_attached|].
  split; [intros j Hj; by apply attachIfNeeded_other|].
  split.
  { unfold attachIfNeeded. destruct (servo_attached idx s); cbn [negb].
    - by rewrite app_nil_r.
    - reflexivity. }
  split; [|apply only_switched_attachIfNeeded].
  unfold attachIfNeeded at 1.
  by rewrite attachIfNeeded_attached.
Qed.

Lemma attachIfNeeded_spec_witness :
  let s := setup 0 boot in
  0 ≤ 2 < Z.of_nat (length (servos s))
  ∧ servo_attached 2 s = false
  ∧ servo_attached 2 (attachIfNeeded 2 s) = true
  ∧ servo_log (attachIfNeeded 2 (attachIfNeeded 2 s)) = [Attach 2 6].
Proof.
  cbv zeta.
  assert (R : 0 ≤ 2 < Z.of_nat (length (servos (setup 0 boot))))
    by (vm_compute; split; congruence).
  destruct (attachIfNeeded_spec 2 (setup 0 boot) R) as (H1 & _ & H3 & H4 & _).
  split; [exact R|]. split; [reflexivity|]. split; [exact H1|].
  rewrite H4, H3. reflexivity.
Defined.

(** X3: an accepted motion command puts the power state right whatever it
    was before: with six servo objects, after the command the addressed
    servo is attached, every other servo is detached and [activeServo]
    names the addressed servo, even when several servos were attached or
    [activeServo] was wrong. *)
Theorem accept_restores_exclusivity cmdStr c a out s :
  length (servos s) = 6%nat →
  addresses cmdStr c a → min_of c ≤ a ≤ max_of c →
  let s' := snd (processCommand cmdStr out s) in
  (∀ j, valid_idx j → servo_attached j s' = (j =? c))
  ∧ activeServo s' = c
  ∧ exclusive s'.
Proof.
  intros Hlen Hadr Hin s'.
  assert (Hc := addresses_valid _ _ _ Hadr).
  subst s'. rewrite (processCommand_accept _ _ _ out s Hadr Hin).
  unfold cmd_accept, and_then.
  set (s0 := if negb (activeServo s =? -1) && negb (activeServo s =? c)
             then (if servo_attached (activeServo s) s
                   then servo_detach (activeServo s) s else s)
             else s).
  assert (H0 : length (servos s0) = 6%nat).
  { subst s0. destruct (_ && _); [|done].
    destruct (servo_attached _ s); [|done].
    unfold servo_detach. fields. by rewrite length_aset. }
  destruct (detachAllExcept_effect c s0) as (Hd & _ & Hf).
  assert (H1 : length (servos (detachAllExcept c s0)) = 6%nat).
  { destruct Hf as (_ & _ & _ & _ & _ & _ & _ & _ & _ & _ & _ & Hl).
    congruence. }
  set (s2 := attachIfNeeded c (detachAllExcept c s0)).
  assert (Hatt : ∀ j, valid_idx j → servo_attached j s2 = (j =? c)).
  { intros j Hj. subst s2. destruct (Z.eqb_spec j c) as [->|Hne].
    - apply attachIfNeeded_attached. rewrite H1.
      unfold valid_idx, NUM_SERVOS in Hc. lia.
    - rewrite attachIfNeeded_other by done. rewrite Hd.
      replace (j =? c) with false by lia.
      unfold valid_idx in Hj.
      replace ((0 <=? j) && (j <? NUM_SERVOS)) with true
        by (symmetry; apply andb_true_iff; lia).
      by rewrite andb_false_r. }
  assert (Hfin : ∀ j, valid_idx j →
            servo_attached j
              (with_led true
                 (println Serial (ok_text c a)
                    (println out (ok_text c a)
                       (with_activeServo c
                          (with_targetAngles (aset (targetAngles s2) c a)
                             s2))))) = (j =? c)).
  { intros j Hj. rewrite <- (Hatt j Hj). by destruct out. }
  assert (Hact : activeServo
                   (with_led true
                      (println Serial (ok_text c a)
                         (println out (ok_text c a)
                            (with_activeServo c
                               (with_targetAngles
                                  (aset (targetAngles s2) c a) s2))))) = c)
    by (by destruct out).
  split; [exact Hfin|]. split; [exact Hact|].
  split.
  - intros i j Hi Hj Ai Aj. rewrite Hfin in Ai, Aj by done. lia.
  - intros k Hk Hka. rewrite Hact in Hka. subst k.
    split; [rewrite Hfin by done; lia|].
    intros j Hj Hne. rewrite Hfin by done. lia.
Qed.

Lemma accept_restores_exclusivity_witness :
  let s := with_activeServo 4
             (with_servos [servo_on; servo_on; servo_off; servo_on;
                           servo_off; servo_off] (setup 0 boot)) in
  let s' := snd (processCommand (mem "C10") BTSerial s) in
  length (servos s) = 6%nat
  ∧ servo_attached 0 s' = false ∧ servo_attached 2 s' = true
  ∧ servo_log s' = [Detach 0; Detach 1; Detach 3; Attach 2 6].
Proof.
  cbv zeta.
  set (s := with_activeServo 4
              (with_servos [servo_on; servo_on; servo_off; servo_on;
                            servo_off; servo_off] (setup 0 boot))).
  assert (L : length (servos s) = 6%nat) by reflexivity.
  assert (D : addresses (mem "C10") 2 10)
    by (repeat split; vm_compute; congruence).
  assert (I : min_of 2 ≤ 10 ≤ max_of 2) by (vm_compute; split; discriminate).
  destruct (accept_restores_exclusivity (mem "C10") 2 10 BTSerial s L D I)
    as (H & _ & _).
  assert (V0 : valid_idx 0) by (vm_compute; split; congruence).
  assert (V2 : valid_idx 2) by (vm_compute; split; congruence).
  split; [exact L|]. split; [exact (H 0 V0)|]. split; [exact (H 2 V2)|].
  vm_compute. reflexivity.
Defined.

(** * Further properties of the command interpreter *)

Lemma skip_spaces_cstr l :
  skip_spaces (cstr l ++ [NUL]) = cstr (skip_spaces l) ++ [NUL].
Proof.
  induction l as [|c r IH]; [reflexivity|].
  cbn [cstr skip_spaces].
  destruct (Ascii.eqb_spec c NUL) as [->|Hc]; [reflexivity|].
  cbn [app skip_spaces]. destruct (isspace c); [exact IH|].
  cbn [cstr]. by destruct (Ascii.eqb_spec c NUL).
Qed.

Lemma atoi_digits_cstr l :
  ∀ acc, atoi_digits acc (cstr l ++ [NUL]) = atoi_digits acc l.
Proof.
  induction l as [|c r IH]; intros acc; [reflexivity|].
  cbn [cstr atoi_digits].
  destruct (Ascii.eqb_spec c NUL) as [->|Hc]; [reflexivity|].
  cbn [app atoi_digits]. destruct (isdigit c); [apply IH | done].
Qed.

(** [atoi] reads nothing beyond the terminating NUL. *)
Lemma atoi_cstr l : atoi (cstr l ++ [NUL]) = atoi l.
Proof.
  unfold atoi. rewrite skip_spaces_cstr.
  destruct (skip_spaces l) as [|c r]; [reflexivity|].
  cbn [cstr]. destruct (Ascii.eqb_spec c NUL) as [->|Hc]; [reflexivity|].
  cbn [app].
  destruct (Ascii.eqb c "-"); [by rewrite atoi_digits_cstr|].
  destruct (Ascii.eqb c "+"); [by rewrite atoi_digits_cstr|].
  change (c :: cstr r ++ [NUL]) with ((c :: cstr r) ++ [NUL]).
  replace (c :: cstr r) with (cstr (c :: r))
    by (cbn [cstr]; by destruct (Ascii.eqb_spec c NUL)).
  apply atoi_digits_cstr.
Qed.

Lemma cstr_idem l : cstr (cstr l ++ [NUL]) = cstr l.
Proof.
  induction l as [|c r IH]; [reflexivity|]. cbn [cstr].
  destruct (Ascii.eqb_spec c NUL) as [->|Hc]; [reflexivity|].
  cbn [app cstr]. destruct (Ascii.eqb_spec c NUL); [done|]. by rewrite IH.
Qed.

(** X4: [processCommand] reads its argument as a C string: the bytes that
    follow the first NUL, such as the rest of an earlier and longer line
    still in the buffer, have no influence on the result. *)
Theorem processCommand_reads_cstr cmdStr out s :
  processCommand cmdStr out s = processCommand (cstr cmdStr ++ [NUL]) out s.
Proof.
  destruct cmdStr as [|c r]; [reflexivity|].
  destruct (Ascii.eqb_spec c NUL) as [->|Hc]; [reflexivity|].
  unfold processCommand.
  assert (E0 : aget NUL (cstr (c :: r) ++ [NUL]) 0 = c).
  { cbn [cstr]. by destruct (Ascii.eqb_spec c NUL). }
  assert (E1 : strlen (cstr (c :: r) ++ [NUL]) = strlen (c :: r)).
  { unfold strlen. by rewrite cstr_idem. }
  assert (E2 : atoi (drop 1 (cstr (c :: r) ++ [NUL])) = atoi (drop 1 (c :: r))).
  { cbn [cstr]. destruct (Ascii.eqb_spec c NUL); [done|].
    cbn [app drop]. rewrite !drop_0. apply atoi_cstr. }
  assert (E3 : cmd_unknown (cstr (c :: r) ++ [NUL]) out s
               = cmd_unknown (c :: r) out s).
  { unfold cmd_unknown. by rewrite cstr_idem. }
  rewrite E0, E1, E2, E3.
  change (aget NUL (c :: r) 0) with c. reflexivity.
Qed.

(** X5: a command whose first character is G or g, whatever follows it, is
    answered on the port it came from with the STATUS line: for each servo
    in order its name and the decimal value of [currentAngles], then the
    value of [moveSpeed]; nothing else changes. *)
Theorem status_reply cmdStr out s :
  toupper (aget NUL cmdStr 0) = "G"%char →
  processCommand cmdStr out s
  = (true,
     print out
       (chars "STATUS:"
        ++ chars " A=" ++ dec (current_of 0 s)
        ++ chars " B=" ++ dec (current_of 1 s)
        ++ chars " C=" ++ dec (current_of 2 s)
        ++ chars " D=" ++ dec (current_of 3 s)
        ++ chars " E=" ++ dec (current_of 4 s)
        ++ chars " F=" ++ dec (current_of 5 s)
        ++ chars " | SPEED=" ++ dec (moveSpeed s) ++ CRLF) s)
  ∧ only_printed s (snd (processCommand cmdStr out s)).
Proof.
  intros Hu.
  assert (E : processCommand cmdStr out s = (true, cmd_status out s)).
  { unfold processCommand. rewrite Hu.
    destruct (Ascii.eqb_spec (aget NUL cmdStr 0) NUL) as [E0|_]; [|done].
    rewrite E0 in Hu. discriminate Hu. }
  rewrite E, cmd_status_print. cbn [snd].
  split; [|apply only_printed_print].
  do 2 f_equal. unfold status_text. cbn [map concat].
  rewrite <- !app_assoc. reflexivity.
Qed.

Lemma status_reply_witness :
  toupper (aget NUL (mem "g?") 0) = "G"%char
  ∧ bt_tx (snd (processCommand (mem "g?") BTSerial
                  (move_step 30 30
                     (snd (processCommand (mem "B60") BTSerial
                             (setup 0 boot))))))
    = bt_tx (snd (processCommand (mem "B60") BTSerial (setup 0 boot)))
      ++ chars "STATUS: A=0 B=46 C=0 D=90 E=0 F=90 | SPEED=20" ++ CRLF.
Proof.
  assert (U : toupper (aget NUL (mem "g?") 0) = "G"%char) by reflexivity.
  split; [exact U|].
  rewrite (proj1 (status_reply (mem "g?") BTSerial _ U)).
  vm_compute. reflexivity.
Defined.

(** X6: a command whose first character is ?, H or h is answered on the
    port it came from with the same seven lines in every state: the
    heading and, for each servo, its name and its range as the tables
    [minAngles] and [maxAngles] give it; nothing else changes. *)
Theorem help_reply cmdStr out s :
  toupper (aget NUL cmdStr 0) = "?"%char
  ∨ toupper (aget NUL cmdStr 0) = "H"%char →
  processCommand cmdStr out s = (true, print out help_lines s)
  ∧ only_printed s (snd (processCommand cmdStr out s)).
Proof.
  intros Hu.
  assert (E : processCommand cmdStr out s = (true, cmd_help out s)).
  { unfold processCommand.
    destruct (Ascii.eqb_spec (aget NUL cmdStr 0) NUL) as [E0|_].
    - rewrite E0 in Hu. destruct Hu as [Hu|Hu]; discriminate Hu.
    - destruct Hu as [-> | ->]; reflexivity. }
  rewrite E, cmd_help_print. cbn [snd].
  split; [|apply only_printed_print]. reflexivity.
Qed.

Lemma help_reply_witness :
  (toupper (aget NUL (mem "hello") 0) = "?"%char
   ∨ toupper (aget NUL (mem "hello") 0) = "H"%char)
  ∧ snd (processCommand (mem "hello") BTSerial (setup 0 boot))
    = print BTSerial help_lines (setup 0 boot).
Proof.
  assert (U : toupper (aget NUL (mem "hello") 0) = "?"%char
              ∨ toupper (aget NUL (mem "hello") 0) = "H"%char)
    by (right; reflexivity).
  split; [exact U|].
  by rewrite (proj1 (help_reply (mem "hello") BTSerial (setup 0 boot) U)).
Defined.

(** X7: a command that is not empty, does not start with ?, H or G (in
    either case) and is not a servo letter followed by at least one
    character is answered on the port it came from with the
    unknown-command error that quotes the command as it was received;
    nothing else changes. *)
Theorem unknown_reply cmdStr out s :
  aget NUL cmdStr 0 ≠ NUL →
  toupper (aget NUL cmdStr 0) ≠ "?"%char →
  toupper (aget NUL cmdStr 0) ≠ "H"%char →
  toupper (aget NUL cmdStr 0) ≠ "G"%char →
  is_motion cmdStr = false →
  processCommand cmdStr out s
  = (true,
     print out (chars "ERR:Unknown cmd '" ++ cstr cmdStr ++ chars "'" ++ CRLF)
       s)
  ∧ only_printed s (snd (processCommand cmdStr out s)).
Proof.
  intros H0 H1 H2 H3 Hm.
  assert (E : processCommand cmdStr out s
              = (true, cmd_unknown cmdStr out s)).
  { unfold processCommand. unfold is_motion in Hm.
    destruct (Ascii.eqb_spec (aget NUL cmdStr 0) NUL); [done|].
    destruct (Ascii.eqb_spec (toupper (aget NUL cmdStr 0)) "?"); [done|].
    destruct (Ascii.eqb_spec (toupper (aget NUL cmdStr 0)) "H"); [done|].
    destruct (Ascii.eqb_spec (toupper (aget NUL cmdStr 0)) "G"); [done|].
    cbn [orb]. by rewrite Hm. }
  rewrite E, cmd_unknown_print. cbn [snd].
  split; [reflexivity | apply only_printed_print].
Qed.

Lemma unknown_reply_witness :
  aget NUL (mem "Z9") 0 ≠ NUL
  ∧ is_motion (mem "Z9") = false
  ∧ snd (processCommand (mem "Z9") BTSerial (setup 0 boot))
    = print BTSerial (chars "ERR:Unknown cmd 'Z9'" ++ CRLF) (setup 0 boot).
Proof.
  assert (H0 : aget NUL (mem "Z9") 0 ≠ NUL) by discriminate.
  assert (H1 : toupper (aget NUL (mem "Z9") 0) ≠ "?"%char) by discriminate.
  assert (H2 : toupper (aget NUL (mem "Z9") 0) ≠ "H"%char) by discriminate.
  assert (H3 : toupper (aget NUL (mem "Z9") 0) ≠ "G"%char) by discriminate.
  assert (Hm : is_motion (mem "Z9") = false) by reflexivity.
  split; [exact H0|]. split; [exact Hm|].
  by rewrite (proj1 (unknown_reply (mem "Z9") BTSerial (setup 0 boot)
                       H0 H1 H2 H3 Hm)).
Defined.

Lemma name_of_not_NUL c ch :
  valid_idx c → toupper ch = name_of c → Ascii.eqb ch NUL = false.
Proof.
  intros Hc Hu. destruct (Ascii.eqb_spec ch NUL) as [->|]; [|done].
  destruct (name_of_plain c Hc) as (N0 & _). rewrite <- Hu in N0.
  discriminate N0.
Qed.

(** X8: a servo letter followed by text that does not start a number (no
    digit, sign or white space) is the same command as that letter
    followed by 0: it is a move to angle 0 for the servos whose range
    starts at 0 and a range error for the others. *)
Theorem text_after_letter_is_zero ch x rest c out s :
  valid_idx c → toupper ch = name_of c →
  x ≠ NUL → isspace x = false → isdigit x = false →
  x ≠ "+"%char → x ≠ "-"%char →
  processCommand (ch :: x :: rest) out s
  = processCommand [ch; "0"%char; NUL] out s
  ∧ processCommand (ch :: x :: rest) out s
    = (true,
       if min_of c =? 0 then cmd_accept c 0 out s else cmd_reject c out s).
Proof.
  intros Hc Hu Hx Hsp Hdg Hp Hm.
  assert (Hch := name_of_not_NUL c ch Hc Hu).
  assert (A1 : addresses (ch :: x :: rest) c 0).
  { split; [done|]. split; [done|]. split.
    - unfold strlen. cbn [cstr]. rewrite Hch.
      destruct (Ascii.eqb_spec x NUL); [done|]. cbn [length]. lia.
    - cbn [drop]. rewrite ?drop_0. unfold atoi. cbn [skip_spaces].
      rewrite Hsp.
      destruct (Ascii.eqb_spec x "-"); [done|].
      destruct (Ascii.eqb_spec x "+"); [done|].
      cbn [atoi_digits]. by rewrite Hdg. }
  assert (A2 : addresses [ch; "0"%char; NUL] c 0).
  { split; [done|]. split; [done|]. split.
    - unfold strlen. cbn [cstr]. rewrite Hch. reflexivity.
    - reflexivity. }
  rewrite (processCommand_motion _ _ _ out s A1).
  rewrite (processCommand_motion _ _ _ out s A2).
  split; [reflexivity|].
  destruct (range_of_valid c Hc) as (R1 & R2 & R3).
  destruct (Z.eqb_spec (min_of c) 0) as [E|E].
  - replace ((min_of c <=? 0) && (0 <=? max_of c)) with true
      by (symmetry; apply andb_true_iff; lia). done.
  - replace (min_of c <=? 0) with false by lia. done.
Qed.

Lemma text_after_letter_is_zero_witness :
  valid_idx 1 ∧ min_of 1 = 45
  ∧ bt_tx (snd (processCommand (mem "bx7") BTSerial (setup 0 boot)))
    = bt_tx (setup 0 boot) ++ chars "ERR:B range 45-90" ++ CRLF.
Proof.
  assert (V : valid_idx 1) by (vm_compute; split; congruence).
  assert (U : toupper "b" = name_of 1) by reflexivity.
  assert (X0 : "x"%char ≠ NUL) by discriminate.
  assert (X1 : isspace "x" = false) by reflexivity.
  assert (X2 : isdigit "x" = false) by reflexivity.
  assert (X3 : "x"%char ≠ "+"%char) by discriminate.
  assert (X4 : "x"%char ≠ "-"%char) by discriminate.
  destruct (text_after_letter_is_zero "b" "x" ["7"%char; NUL] 1 BTSerial
              (setup 0 boot) V U X0 X1 X2 X3 X4) as (_ & H).
  split; [exact V|]. split; [reflexivity|].
  change (mem "bx7") with ["b"%char; "x"%char; "7"%char; NUL].
  rewrite H. vm_compute. reflexivity.
Defined.

(** The ways [processCommand] can end. *)
Lemma processCommand_cases cmdStr out s :
  processCommand cmdStr out s = (false, s)
  ∨ (∃ txt, processCommand cmdStr out s = (true, print out txt s))
  ∨ (∃ c, valid_idx c
        ∧ processCommand cmdStr out s = (true, cmd_reject c out s))
  ∨ (∃ c a, valid_idx c ∧ min_of c ≤ a ≤ max_of c
        ∧ processCommand cmdStr out s = (true, cmd_accept c a out s)).
Proof.
  unfold processCommand.
  destruct (Ascii.eqb (aget NUL cmdStr 0) NUL); [by left|]. right.
  destruct (_ || _).
  { left. eexists. by rewrite cmd_help_print. }
  destruct (Ascii.eqb _ "G").
  { left. eexists. by rewrite cmd_status_print. }
  destruct (find_servo_sound (toupper (aget NUL cmdStr 0))) as [->|[Hv _]].
  { left. eexists. cbn [Z.eqb negb andb]. by rewrite cmd_unknown_print. }
  destruct (negb _ && (1 <? strlen cmdStr));
    [|left; eexists; by rewrite cmd_unknown_print].
  right.
  destruct ((min_of _ <=? _) && (_ <=? max_of _)) eqn:E.
  - right. apply andb_prop in E as [E1 E2].
    eexists _, _. split; [exact Hv|]. split; [|reflexivity]. lia.
  - left. eexists. split; [exact Hv | reflexivity].
Qed.

Lemma only_switched_first_block c s :
  only_switched s
    (if negb (activeServo s =? -1) && negb (activeServo s =? c)
     then (if servo_attached (activeServo s) s
           then servo_detach (activeServo s) s else s)
     else s).
Proof.
  destruct (_ && _); [|apply only_switched_refl].
  destruct (servo_attached _ s);
    [apply only_switched_detach | apply only_switched_refl].
Qed.

(** What an accepted command does to the state, whatever the state. *)
Lemma cmd_accept_frame c a out s :
  currentAngles (cmd_accept c a out s) = currentAngles s
  ∧ moveSpeed (cmd_accept c a out s) = moveSpeed s
  ∧ lastInfoMs (cmd_accept c a out s) = lastInfoMs s
  ∧ lastMoveMs (cmd_accept c a out s) = lastMoveMs s
  ∧ btCommandBuffer (cmd_accept c a out s) = btCommandBuffer s
  ∧ btBufferIndex (cmd_accept c a out s) = btBufferIndex s
  ∧ length (servos (cmd_accept c a out s)) = length (servos s)
  ∧ targetAngles (cmd_accept c a out s) = aset (targetAngles s) c a
  ∧ activeServo (cmd_accept c a out s) = c
  ∧ led (cmd_accept c a out s) = true
  ∧ bt_tx (cmd_accept c a out s)
    = bt_tx (println Serial (ok_text c a) (println out (ok_text c a) s))
  ∧ serial_tx (cmd_accept c a out s)
    = serial_tx (println Serial (ok_text c a) (println out (ok_text c a) s))
  ∧ ∃ evs, servo_log (cmd_accept c a out s) = servo_log s ++ evs
           ∧ Forall (fun ev => is_write ev = false) evs.
Proof.
  unfold cmd_accept, and_then.
  set (s0 := if negb (activeServo s =? -1) && negb (activeServo s =? c)
             then (if servo_attached (activeServo s) s
                   then servo_detach (activeServo s) s else s)
             else s).
  assert (F0 : only_switched s s0) by apply only_switched_first_block.
  assert (L0 : ∃ evs, servo_log s0 = servo_log s ++ evs
                      ∧ Forall (fun ev => is_write ev = false) evs).
  { subst s0.
    destruct (negb (activeServo s =? -1) && negb (activeServo s =? c));
      [|exists []; split; [by rewrite app_nil_r | constructor]].
    destruct (servo_attached (activeServo s) s);
      [|exists []; split; [by rewrite app_nil_r | constructor]].
    eexists [_]. split; [reflexivity|]. repeat constructor. }
  destruct (detachAllExcept_effect c s0) as (_ & L1 & F1).
  set (s1 := detachAllExcept c s0) in *.
  assert (F2 : only_switched s1 (attachIfNeeded c s1))
    by apply only_switched_attachIfNeeded.
  assert (L2 : ∃ evs, servo_log (attachIfNeeded c s1) = servo_log s1 ++ evs
                      ∧ Forall (fun ev => is_write ev = false) evs).
  { unfold attachIfNeeded.
    destruct (negb (servo_attached c s1)).
    - eexists [_]. split; [reflexivity|]. repeat constructor.
    - exists []. split; [by rewrite app_nil_r | constructor]. }
  set (s2 := attachIfNeeded c s1) in *.
  pose proof (only_switched_trans _ _ _ F0 (only_switched_trans _ _ _ F1 F2))
    as (E1 & E2 & E3 & E4 & E5 & E6 & E7 & E8 & E9 & E10 & E11 & E12).
  destruct L0 as (ev0 & L0 & W0). destruct L2 as (ev2 & L2 & W2).
  assert (L : servo_log s2
              = servo_log s ++ ev0 ++ map Detach (to_detach c s0) ++ ev2).
  { rewrite L2, L1, L0. by rewrite <- !app_assoc. }
  assert (W : Forall (fun ev => is_write ev = false)
                (ev0 ++ map Detach (to_detach c s0) ++ ev2)).
  { apply Forall_app. split; [done|]. apply Forall_app. split; [|done].
    apply List.Forall_map. by apply Forall_true. }
  destruct out; fields; rewrite ?E1, ?E2, ?E3, ?E5, ?E6, ?E7, ?E8, ?E9, ?E10;
    repeat (split; [done|]); eauto.
Qed.

(** X9: dispatching a command never moves a servo and never touches the
    timers, the speed or the command buffer: whatever the command and the
    state, [currentAngles] is unchanged, no [write] reaches a servo, and at
    most one target changes, to an angle inside the range of its servo. *)
Theorem dispatch_frame cmdStr out s :
  currentAngles (snd (processCommand cmdStr out s)) = currentAngles s
  ∧ moveSpeed (snd (processCommand cmdStr out s)) = moveSpeed s
  ∧ lastInfoMs (snd (processCommand cmdStr out s)) = lastInfoMs s
  ∧ lastMoveMs (snd (processCommand cmdStr out s)) = lastMoveMs s
  ∧ btCommandBuffer (snd (processCommand cmdStr out s)) = btCommandBuffer s
  ∧ btBufferIndex (snd (processCommand cmdStr out s)) = btBufferIndex s
  ∧ (∃ evs, servo_log (snd (processCommand cmdStr out s)) = servo_log s ++ evs
            ∧ Forall (fun ev => is_write ev = false) evs)
  ∧ (targetAngles (snd (processCommand cmdStr out s)) = targetAngles s
     ∨ ∃ c a, valid_idx c ∧ min_of c ≤ a ≤ max_of c
         ∧ targetAngles (snd (processCommand cmdStr out s))
           = aset (targetAngles s) c a).
Proof.
  assert (Hp : ∀ s', only_printed s s' →
            currentAngles s' = currentAngles s
            ∧ moveSpeed s' = moveSpeed s
            ∧ lastInfoMs s' = lastInfoMs s
            ∧ lastMoveMs s' = lastMoveMs s
            ∧ btCommandBuffer s' = btCommandBuffer s
            ∧ btBufferIndex s' = btBufferIndex s
            ∧ (∃ evs, servo_log s' = servo_log s ++ evs
                      ∧ Forall (fun ev => is_write ev = false) evs)
            ∧ (targetAngles s' = targetAngles s
               ∨ ∃ c a, valid_idx c ∧ min_of c ≤ a ≤ max_of c
                   ∧ targetAngles s' = aset (targetAngles s) c a)).
  { intros s' (P1 & P2 & P3 & P4 & P5 & P6 & P7 & P8 & P9 & P10 & P11).
    repeat (split; [done|]). split; [|by left].
    exists []. by rewrite app_nil_r. }
  destruct (processCommand_cases cmdStr out s)
    as [E|[(txt & E)|[(c & Hc & E)|(c & a & Hc & Ha & E)]]];
    rewrite E; cbn [snd].
  - apply Hp. by repeat split.
  - apply Hp, only_printed_print.
  - apply Hp. rewrite cmd_reject_print.
    eapply only_printed_trans; apply only_printed_print.
  - destruct (cmd_accept_frame c a out s)
      as (F1 & F2 & F3 & F4 & F5 & F6 & _ & F8 & _ & _ & _ & _ & F13).
    repeat (split; [done|]). right. by exists c, a.
Qed.

(** X10: an accepted motion command prints the line
    [OK:<name>-><angle> (range <min>-<max>)] on the port it came from and
    on the primary port, and switches the LED on. *)
Theorem accept_reply cmdStr c a out s :
  addresses cmdStr c a → min_of c ≤ a ≤ max_of c →
  let line :=
    chars "OK:" ++ [name_of c] ++ chars "->" ++ dec a ++ chars " (range "
      ++ dec (min_of c) ++ chars "-" ++ dec (max_of c) ++ chars ")" ++ CRLF in
  bt_tx (snd (processCommand cmdStr out s))
  = bt_tx (print Serial line (print out line s))
  ∧ serial_tx (snd (processCommand cmdStr out s))
    = serial_tx (print Serial line (print out line s))
  ∧ led (snd (processCommand cmdStr out s)) = true.
Proof.
  intros Hadr Hin line.
  rewrite (processCommand_accept _ _ _ out s Hadr Hin).
  destruct (cmd_accept_frame c a out s)
    as (_ & _ & _ & _ & _ & _ & _ & _ & _ & F10 & F11 & F12 & _).
  assert (E : ok_text c a ++ CRLF = line).
  { unfold ok_text, line. by rewrite <- !app_assoc. }
  rewrite F11, F12, !println_as_print, E. by repeat split.
Qed.

Lemma accept_reply_witness :
  addresses (mem "f150") 5 150 ∧ min_of 5 ≤ 150 ≤ max_of 5
  ∧ bt_tx (snd (processCommand (mem "f150") BTSerial (setup 0 boot)))
    = bt_tx (setup 0 boot) ++ chars "OK:F->150 (range 90-180)" ++ CRLF
  ∧ led (snd (processCommand (mem "f150") BTSerial (setup 0 boot))) = true.
Proof.
  assert (D : addresses (mem "f150") 5 150)
    by (repeat split; vm_compute; congruence).
  assert (I : min_of 5 ≤ 150 ≤ max_of 5) by (vm_compute; split; discriminate).
  destruct (accept_reply (mem "f150") 5 150 BTSerial (setup 0 boot) D I)
    as (H1 & _ & H3).
  split; [exact D|]. split; [exact I|]. split; [|exact H3].
  rewrite H1. vm_compute. reflexivity.
Defined.

(** * Further invariants *)

Lemma ulong_range t : 0 ≤ ulong t < ULONG_RANGE.
Proof. unfold ulong, ULONG_RANGE. apply Z.mod_pos_bound. lia. Qed.

Lemma Forall_one {A} (P : A → Prop) x : P x → Forall P [x].
Proof. intros H. constructor; [exact H | constructor]. Qed.

Lemma Inv_io_setup t : Inv_io (setup t boot).
Proof.
  split; [reflexivity|]. split; [constructor|].
  split; [vm_compute; split; congruence | apply ulong_range].
Qed.

Lemma Inv_io_only_printed s s' :
  only_printed s s' → Inv_io s → Inv_io s'.
Proof.
  intros (P1 & P2 & P3 & P4 & P5 & P6 & P7 & P8 & P9 & P10 & P11).
  unfold Inv_io. rewrite P5, P6, P7, P10, P11. done.
Qed.

Lemma Inv_io_cmd_accept c a out s :
  Inv s → valid_idx c → Inv_io s → Inv_io (cmd_accept c a out s).
Proof.
  intros HI Hc (I1 & I2 & I3 & I4).
  destruct (cmd_accept_fields c a out s HI Hc) as (_ & F2 & _ & _ & F5 & F6).
  destruct (cmd_accept_frame c a out s) as (_ & _ & G3 & G4 & _).
  unfold Inv_io. rewrite F2, F5, F6, G3, G4.
  split; [by replace (c =? -1) with false by (unfold valid_idx in Hc; lia)|].
  split; [|done].
  unfold switch_to. destruct (activeServo s =? c); [done|].
  destruct (Z.eqb_spec (activeServo s) (-1)) as [E|E].
  - unfold servo_attach. fields. apply Forall_app. split; [done|].
    by apply Forall_one.
  - assert (Hv : valid_idx (activeServo s))
      by (destruct (inv_active s HI); [contradiction | done]).
    unfold servo_attach, servo_detach. fields.
    apply Forall_app. split; [|by apply Forall_one].
    apply Forall_app. split; [done|]. by apply Forall_one.
Qed.

Lemma Inv_io_processCommand cmdStr out s :
  Inv s → Inv_io s → Inv_io (snd (processCommand cmdStr out s)).
Proof.
  intros HI Hio.
  destruct (processCommand_cases cmdStr out s)
    as [E|[(txt & E)|[(c & Hc & E)|(c & a & Hc & Ha & E)]]];
    rewrite E; cbn [snd].
  - done.
  - eapply Inv_io_only_printed; [apply only_printed_print | done].
  - eapply Inv_io_only_printed; [|done]. rewrite cmd_reject_print.
    eapply only_printed_trans; apply only_printed_print.
  - by apply Inv_io_cmd_accept.
Qed.

Lemma Inv_io_move_step t1 t2 s :
  Inv s → Inv_io s → Inv_io (move_step t1 t2 s).
Proof.
  intros HI (I1 & I2 & I3 & I4).
  destruct (inv_active s HI) as [Hn|Hv].
  { by rewrite move_step_idle. }
  destruct (throttle_open t1 s) eqn:Ho; [|by rewrite move_step_closed].
  destruct (Z.eq_dec (current_of (activeServo s) s)
              (target_of (activeServo s) s)) as [Heq|Hne].
  - rewrite move_step_arrive by done. unfold Inv_io. fields.
    split; [reflexivity|]. split; [|split; [apply ulong_range | done]].
    apply Forall_app. split; [done|]. by apply Forall_one.
  - rewrite move_step_advance by done. unfold Inv_io. fields.
    split; [done|]. split; [|split; [apply ulong_range | done]].
    apply Forall_app. split; [done|]. apply Forall_one. split; [done|].
    pose proof (inv_cur_range s HI _ Hv). pose proof (inv_tgt_range s HI _ Hv).
    destruct (Z.ltb_spec (current_of (activeServo s) s)
                (target_of (activeServo s) s)); lia.
Qed.

Lemma Inv_io_idle_hint t1 t2 s : Inv_io s → Inv_io (idle_hint t1 t2 s).
Proof.
  intros (I1 & I2 & I3 & I4). unfold idle_hint.
  destruct (_ && _); [|done]. unfold Inv_io. fields.
  repeat (split; [done|]). apply ulong_range.
Qed.

Lemma Inv_io_bt_byte t c s : Inv s → Inv_io s → Inv_io (bt_byte t c s).
Proof.
  intros HI Hio. unfold bt_byte.
  destruct (is_eol c).
  - destruct (0 <? btBufferIndex s); [|done].
    cbn [btCommandBuffer with_btCommandBuffer].
    set (s1 := with_btCommandBuffer _ s).
    assert (H1 : Inv s1).
    { destruct HI. constructor;
        unfold servo_attached, current_of, target_of in *; cbn;
        rewrite ?length_aset; assumption. }
    assert (H2 : Inv_io s1) by exact Hio.
    destruct (Inv_io_processCommand (btCommandBuffer s1) BTSerial s1 H1 H2)
      as (J1 & J2 & J3 & J4).
    unfold Inv_io. fields. repeat (split; [done|]). apply ulong_range.
  - destruct (btBufferIndex s <? 31); exact Hio.
Qed.

Lemma reachable_Inv_io s : reachable s → Inv_io s.
Proof.
  induction 1 as [t|cmdStr out s HR IH|t c s HR IH|t1 t2 s HR IH
                  |t1 t2 s HR IH].
  - apply Inv_io_setup.
  - apply Inv_io_processCommand; [by apply reachable_Inv | done].
  - apply Inv_io_bt_byte; [by apply reachable_Inv | done].
  - apply Inv_io_move_step; [by apply reachable_Inv | done].
  - by apply Inv_io_idle_hint.
Qed.

(** X11: in every reachable state the LED is on exactly when a servo is
    active. *)
Theorem led_tracks_motion s :
  reachable s → led s = negb (activeServo s =? -1).
Proof. intros HR. apply (reachable_Inv_io s HR). Qed.

Lemma led_tracks_motion_witness :
  let s := snd (processCommand (mem "E10") BTSerial (setup 0 boot)) in
  reachable s ∧ activeServo s = 4 ∧ led s = true.
Proof.
  cbv zeta.
  assert (R : reachable
                (snd (processCommand (mem "E10") BTSerial (setup 0 boot))))
    by apply reach_command, reach_setup.
  split; [exact R|]. split; [vm_compute; reflexivity|].
  exact (led_tracks_motion _ R).
Defined.

(** X12: in every reachable state with no active servo all six servos are
    detached. *)
Theorem idle_all_detached s :
  reachable s → activeServo s = -1 →
  ∀ j, valid_idx j → servo_attached j s = false.
Proof.
  intros HR Ha j Hj. apply Inv_attached_false; [by apply reachable_Inv|done|].
  unfold valid_idx in Hj. lia.
Qed.

Lemma idle_all_detached_witness :
  let s := run [line_env "A1" 30; quiet_env 60] (setup 0 boot) in
  reachable s ∧ activeServo s = -1 ∧ servo_log s ≠ []
  ∧ servo_attached 0 s = false.
Proof.
  cbv zeta.
  assert (R : reachable (run [line_env "A1" 30; quiet_env 60] (setup 0 boot)))
    by apply reachable_run, reach_setup.
  assert (A : activeServo (run [line_env "A1" 30; quiet_env 60]
                             (setup 0 boot)) = -1)
    by (vm_compute; reflexivity).
  split; [exact R|]. split; [exact A|]. split; [vm_compute; discriminate|].
  apply (idle_all_detached _ R A). vm_compute. split; congruence.
Defined.

(** X13: every call the firmware ever makes to the Servo library is safe:
    [attach] is called for one of the six servos with the pin of that
    servo, [detach] for one of the six servos, and [write] for one of the
    six servos with an angle inside its safe range. *)
Theorem servo_calls_safe s : reachable s → Forall safe_call (servo_log s).
Proof. intros HR. apply (reachable_Inv_io s HR). Qed.

Lemma servo_calls_safe_witness :
  let s := run [line_env "D92" 30; quiet_env 60; line_env "B50" 90]
             (setup 0 boot) in
  reachable s
  ∧ servo_log s = [Attach 3 7; Write 3 91; Write 3 92; Detach 3;
                   Attach 1 5; Write 1 46]
  ∧ Forall safe_call (servo_log s).
Proof.
  cbv zeta.
  assert (R : reachable
                (run [line_env "D92" 30; quiet_env 60; line_env "B50" 90]
                   (setup 0 boot)))
    by apply reachable_run, reach_setup.
  split; [exact R|]. split; [vm_compute; reflexivity|].
  exact (servo_calls_safe _ R).
Defined.

(** * The timers *)

Lemma elapsed_exact last d :
  0 ≤ d < ULONG_RANGE → ulong (ulong (last + d) - last) = d.
Proof.
  intros Hd. unfold ulong, ULONG_RANGE in *. rewrite Zminus_mod_idemp_l.
  replace (last + d - last) with d by lia. by apply Z.mod_small.
Qed.

(** X14: the throttle measures the time since the last step exactly, also
    across the wrap-around of the 32-bit millisecond counter: when [d]
    milliseconds have passed, whatever the counter then reads, the tick
    steps if [d >= 20] and leaves the whole state alone if [d < 20]. *)
Theorem throttle_exact d t2 s :
  reachable s → 0 ≤ d < ULONG_RANGE →
  0 ≤ lastMoveMs s < ULONG_RANGE
  ∧ throttle_open (ulong (lastMoveMs s + d)) s = (20 <=? d)
  ∧ (d < 20 → move_step (ulong (lastMoveMs s + d)) t2 s = s).
Proof.
  intros HR Hd.
  assert (HI := reachable_Inv s HR).
  split; [apply (reachable_Inv_io s HR)|].
  assert (E : throttle_open (ulong (lastMoveMs s + d)) s = (20 <=? d)).
  { unfold throttle_open. rewrite (inv_speed s HI).
    replace (ulong (ulong (lastMoveMs s + d))) with (ulong (lastMoveMs s + d))
      by (unfold ulong; by rewrite Zmod_mod).
    rewrite elapsed_exact by done. reflexivity. }
  split; [exact E|]. intros Hlt. apply move_step_closed. rewrite E. lia.
Qed.

Lemma throttle_exact_witness :
  let s := move_step 4294967290 4294967290
             (snd (processCommand (mem "A9") BTSerial (setup 0 boot))) in
  reachable s ∧ lastMoveMs s = 4294967290
  ∧ throttle_open 13 s = false ∧ throttle_open 14 s = true.
Proof.
  cbv zeta.
  set (s := move_step 4294967290 4294967290
              (snd (processCommand (mem "A9") BTSerial (setup 0 boot)))).
  assert (R : reachable s)
    by apply reach_move, reach_command, reach_setup.
  assert (D1 : 0 ≤ 19 < ULONG_RANGE) by (vm_compute; split; congruence).
  assert (D2 : 0 ≤ 20 < ULONG_RANGE) by (vm_compute; split; congruence).
  split; [exact R|]. split; [vm_compute; reflexivity|].
  split.
  - exact (proj1 (proj2 (throttle_exact 19 0 s R D1))).
  - exact (proj1 (proj2 (throttle_exact 20 0 s R D2))).
Defined.

(** X15: the idle hint is printed, on both ports, only when no servo is
    active and more than 5000 ms have passed since the last message,
    measured exactly also across the wrap-around of the counter; it then
    restarts that timer and changes nothing else, and while a servo is
    active the check does nothing at all. *)
Theorem idle_hint_exact d t2 s :
  0 ≤ d < ULONG_RANGE →
  idle_hint (lastInfoMs s + d) t2 s
  = (if (activeServo s =? -1) && (5000 <? d)
     then with_lastInfoMs (ulong t2)
            (print Serial (ready_text ++ CRLF)
               (print BTSerial (ready_text ++ CRLF) s))
     else s)
  ∧ (∀ t1, activeServo s ≠ -1 → idle_hint t1 t2 s = s).
Proof.
  intros Hd. split; [|intros t1 Ha; by apply idle_hint_active].
  unfold idle_hint. by rewrite elapsed_exact.
Qed.

Lemma idle_hint_exact_witness :
  let s := setup 4294967000 boot in
  0 ≤ 5001 < ULONG_RANGE
  ∧ lastInfoMs s = 4294967000
  ∧ idle_hint 4704 0 s = s
  ∧ bt_tx (idle_hint (lastInfoMs s + 5001) 9 s)
    = bt_tx s ++ ready_text ++ CRLF.
Proof.
  cbv zeta.
  assert (D : 0 ≤ 5001 < ULONG_RANGE) by (vm_compute; split; congruence).
  split; [exact D|]. split; [reflexivity|].
  split; [vm_compute; reflexivity|].
  rewrite (proj1 (idle_hint_exact 5001 9 (setup 4294967000 boot) D)).
  vm_compute. reflexivity.
Defined.

(** * Lines *)

Lemma processCommand_buffer cmdStr out s :
  btCommandBuffer (snd (processCommand cmdStr out s)) = btCommandBuffer s
  ∧ btBufferIndex (snd (processCommand cmdStr out s)) = btBufferIndex s.
Proof.
  destruct (processCommand_cases cmdStr out s)
    as [E|[(txt & E)|[(c & Hc & E)|(c & a & Hc & Ha & E)]]];
    rewrite E; cbn [snd].
  - done.
  - by destruct out.
  - by destruct out.
  - by destruct (cmd_accept_frame c a out s) as (_ & _ & _ & _ & F5 & F6 & _).
Qed.

Lemma cstr_app_NUL cs rest :
  Forall (fun c => c ≠ NUL) cs → cstr (cs ++ NUL :: rest) = cs.
Proof.
  induction 1 as [|c cs Hc Hcs IH]; [reflexivity|].
  cbn [app cstr]. destruct (Ascii.eqb_spec c NUL); [done|]. by rewrite IH.
Qed.

Lemma bt_drain_line clock k cs eol s :
  (1 ≤ length cs ≤ 31)%nat →
  Forall (fun c => is_eol c = false) cs →
  is_eol eol = true →
  btBufferIndex s = 0 → length (btCommandBuffer s) = 32%nat →
  let buf := cs ++ NUL :: drop (S (length cs)) (btCommandBuffer s) in
  let s' := bt_drain clock k (cs ++ [eol]) s in
  s' = with_lastInfoMs (ulong (clock (k + length cs)%nat))
         (with_btBufferIndex 0
            (snd (processCommand buf BTSerial
                    (with_btCommandBuffer buf
                       (with_btBufferIndex (Z.of_nat (length cs)) s)))))
  ∧ (Forall (fun c => c ≠ NUL) cs → cstr buf = cs)
  ∧ btBufferIndex s' = 0
  ∧ length (btCommandBuffer s') = 32%nat.
Proof.
  intros Hlen Hcs Heol Hi Hb buf s'.
  assert (Hfill : bt_drain clock k cs s
                  = with_btBufferIndex (Z.of_nat (length cs))
                      (with_btCommandBuffer
                         (cs ++ drop (length cs) (btCommandBuffer s)) s)).
  { rewrite (bt_drain_fill clock cs Hcs k [] (btCommandBuffer s) s);
      [| done | done | cbn; lia | cbn; lia].
    cbn [length app Nat.add Nat.sub].
    rewrite Nat.min_l by lia. rewrite firstn_all2 by lia. reflexivity. }
  assert (Hdrop : drop (length cs) (btCommandBuffer s)
                  = default NUL (btCommandBuffer s !! length cs)
                    :: drop (S (length cs)) (btCommandBuffer s)).
  { destruct (lookup_lt_is_Some_2 (btCommandBuffer s) (length cs)) as [x Hx];
      [lia|].
    rewrite Hx. cbn [default]. by apply drop_S. }
  assert (Hs' : s' = with_lastInfoMs (ulong (clock (k + length cs)%nat))
                       (with_btBufferIndex 0
                          (snd (processCommand buf BTSerial
                                  (with_btCommandBuffer buf
                                     (with_btBufferIndex
                                        (Z.of_nat (length cs)) s)))))).
  { subst s'. rewrite bt_drain_app, Hfill. cbn [bt_drain].
    unfold bt_byte. rewrite Heol. fields.
    replace (0 <? Z.of_nat (length cs)) with true by lia. cbv iota.
    rewrite Hdrop, aset_middle. reflexivity. }
  split; [exact Hs'|]. split; [intros Hn; by apply cstr_app_NUL|].
  rewrite Hs'. fields.
  destruct (processCommand_buffer buf BTSerial
              (with_btCommandBuffer buf
                 (with_btBufferIndex (Z.of_nat (length cs)) s))) as [Eb _].
  split; [reflexivity|]. rewrite Eb. fields. subst buf.
  rewrite length_app. cbn [length]. rewrite length_drop. lia.
Qed.


(** X16: a line of 1 to 31 bytes that are no line ends, received with an
    empty buffer and followed by a line end, causes exactly one call of
    [processCommand] on the buffer, which then holds the line, a NUL, and
    behind it whatever the buffer held before; as a C string this is the
    line itself when the line has no NUL byte.  Afterwards the buffer is
    empty again and the info timer is restarted. *)
Theorem line_dispatched clock k cs eol s :
  (1 ≤ length cs ≤ 31)%nat →
  Forall (fun c => is_eol c = false) cs →
  is_eol eol = true →
  btBufferIndex s = 0 → length (btCommandBuffer s) = 32%nat →
  let buf := cs ++ NUL :: drop (S (length cs)) (btCommandBuffer s) in
  let s' := bt_drain clock k (cs ++ [eol]) s in
  s' = with_lastInfoMs (ulong (clock (k + length cs)%nat))
         (with_btBufferIndex 0
            (snd (processCommand buf BTSerial
                    (with_btCommandBuffer buf
                       (with_btBufferIndex (Z.of_nat (length cs)) s)))))
  ∧ (Forall (fun c => c ≠ NUL) cs → cstr buf = cs)
  ∧ btBufferIndex s' = 0
  ∧ length (btCommandBuffer s') = 32%nat.
Proof. apply bt_drain_line. Qed.

Lemma line_dispatched_witness :
  let s := bt_drain (fun _ => 5) 0 (chars "A120xyz" ++ [CR]) (setup 0 boot) in
  cstr (btCommandBuffer s) = chars "A120xyz"
  ∧ cstr (btCommandBuffer (bt_drain (fun _ => 6) 0 (chars "G" ++ [LF]) s))
    = chars "G"
  ∧ btCommandBuffer (bt_drain (fun _ => 6) 0 (chars "G" ++ [LF]) s)
    = chars "G" ++ NUL :: chars "20xyz" ++ NUL :: replicate 24 NUL.
Proof.
  cbv zeta.
  set (s := bt_drain (fun _ => 5) 0 (chars "A120xyz" ++ [CR]) (setup 0 boot)).
  assert (L : (1 ≤ length (chars "G") ≤ 31)%nat) by (cbn; lia).
  assert (F : Forall (fun c => is_eol c = false) (chars "G"))
    by (apply Forall_one; reflexivity).
  assert (E : is_eol LF = true) by reflexivity.
  assert (I : btBufferIndex s = 0) by (vm_compute; reflexivity).
  assert (B : length (btCommandBuffer s) = 32%nat) by (vm_compute; reflexivity).
  destruct (line_dispatched (fun _ => 6) 0%nat (chars "G") LF s L F E I B)
    as (H & _).
  split; [vm_compute; reflexivity|].
  rewrite H. split; vm_compute; reflexivity.
Defined.

(** X17: line ends that arrive while the buffer is empty are ignored, so a
    line closed by CR LF (or followed by blank lines) is dispatched once:
    the bytes after the first line end change nothing. *)
Theorem blank_lines_ignored clock k cs eol eols s :
  (1 ≤ length cs ≤ 31)%nat →
  Forall (fun c => is_eol c = false) cs →
  is_eol eol = true →
  Forall (fun c => is_eol c = true) eols →
  btBufferIndex s = 0 → length (btCommandBuffer s) = 32%nat →
  bt_drain clock k (cs ++ eol :: eols) s = bt_drain clock k (cs ++ [eol]) s
  ∧ bt_drain clock k eols s = s.
Proof.
  intros Hlen Hcs Heol Heols Hi Hb.
  assert (Hblank : ∀ k' st, btBufferIndex st = 0 →
            bt_drain clock k' eols st = st).
  { induction Heols as [|e es He Hes IH]; intros k' st Hst; [done|].
    cbn [bt_drain]. unfold bt_byte at 1. rewrite He, Hst.
    change (0 <? 0) with false. cbv iota. by apply IH. }
  split; [|by apply Hblank].
  change (eol :: eols) with ([eol] ++ eols).
  rewrite app_assoc, bt_drain_app. apply Hblank.
  by destruct (bt_drain_line clock k cs eol s Hlen Hcs Heol Hi Hb)
    as (_ & _ & H0 & _).
Qed.

Lemma blank_lines_ignored_witness :
  bt_tx (bt_drain (fun _ => 5) 0 (chars "B50" ++ [CR; LF; LF])
           (setup 0 boot))
  = bt_tx (setup 0 boot) ++ chars "OK:B->50 (range 45-90)" ++ CRLF.
Proof.
  assert (L : (1 ≤ length (chars "B50") ≤ 31)%nat) by (cbn; lia).
  assert (F : Forall (fun c => is_eol c = false) (chars "B50"))
    by (vm_compute; repeat constructor).
  assert (E : is_eol CR = true) by reflexivity.
  assert (G : Forall (fun c => is_eol c = true) [LF; LF])
    by (repeat constructor).
  assert (I : btBufferIndex (setup 0 boot) = 0) by reflexivity.
  assert (B : length (btCommandBuffer (setup 0 boot)) = 32%nat)
    by reflexivity.
  change (chars "B50" ++ [CR; LF; LF]) with (chars "B50" ++ CR :: [LF; LF]).
  rewrite (proj1 (blank_lines_ignored (fun _ => 5) 0%nat (chars "B50") CR
                    [LF; LF] (setup 0 boot) L F E G I B)).
  vm_compute. reflexivity.
Defined.


(** X18: a line whose first byte is NUL is an empty command: it is
    dropped without any reply; only the buffer and the info timer
    change. *)
Theorem nul_line_silent clock k r eol s :
  (length r ≤ 30)%nat →
  Forall (fun c => is_eol c = false) r →
  is_eol eol = true →
  btBufferIndex s = 0 → length (btCommandBuffer s) = 32%nat →
  bt_drain clock k (NUL :: r ++ [eol]) s
  = with_lastInfoMs (ulong (clock (k + S (length r))%nat))
      (with_btCommandBuffer
         (NUL :: r ++ NUL :: drop (S (S (length r))) (btCommandBuffer s)) s).
Proof.
  intros Hlen Hr Heol Hi Hb.
  assert (L : (1 ≤ length (NUL :: r) ≤ 31)%nat) by (cbn; lia).
  assert (F : Forall (fun c => is_eol c = false) (NUL :: r))
    by (constructor; [reflexivity | done]).
  destruct (bt_drain_line clock k (NUL :: r) eol s L F Heol Hi Hb)
    as (H & _).
  change (NUL :: r ++ [eol]) with ((NUL :: r) ++ [eol]). rewrite H.
  cbn [length app]. unfold processCommand.
  change (aget NUL (NUL :: ?l) 0) with NUL.
  change (Ascii.eqb NUL NUL) with true. cbv iota. cbn [snd].
  rewrite <- Hi. by destruct s.
Qed.

Lemma nul_line_silent_witness :
  let s := bt_drain (fun _ => 5) 0 (NUL :: chars "A90" ++ [LF]) (setup 0 boot) in
  bt_tx s = bt_tx (setup 0 boot) ∧ activeServo s = -1 ∧ lastInfoMs s = 5.
Proof.
  cbv zeta.
  assert (L : (length (chars "A90") ≤ 30)%nat) by (cbn; lia).
  assert (F : Forall (fun c => is_eol c = false) (chars "A90"))
    by (vm_compute; repeat constructor).
  assert (E : is_eol LF = true) by reflexivity.
  assert (I : btBufferIndex (setup 0 boot) = 0) by reflexivity.
  assert (B : length (btCommandBuffer (setup 0 boot)) = 32%nat)
    by reflexivity.
  rewrite (nul_line_silent (fun _ => 5) 0%nat (chars "A90") LF (setup 0 boot)
             L F E I B).
  repeat split.
Defined.

Lemma toupper_idem ch : toupper (toupper ch) = toupper ch.
Proof. destruct ch as [[] [] [] [] [] [] [] []]; reflexivity. Qed.

Lemma toupper_NUL_inv ch : toupper ch = NUL → ch = NUL.
Proof. destruct ch as [[] [] [] [] [] [] [] []]; intros H; (reflexivity || discriminate H). Qed.

(** X19: the first character of a command is read without regard to
    case: a HELP, STATUS or motion command gives the same result, state
    and replies, as the command with its first character in upper case.
    (The unknown-command error is left out: it quotes the command as
    typed.) *)
Theorem first_letter_case_ignored ch rest out s :
  toupper ch = "?"%char ∨ toupper ch = "H"%char ∨ toupper ch = "G"%char
  ∨ is_motion (ch :: rest) = true →
  processCommand (ch :: rest) out s
  = processCommand (toupper ch :: rest) out s.
Proof.
  intros H.
  assert (Hn : Ascii.eqb (toupper ch) NUL = false).
  { destruct (Ascii.eqb_spec (toupper ch) NUL) as [E|]; [|done].
    unfold is_motion in H. change (aget NUL (ch :: rest) 0) with ch in H.
    rewrite E in H.
    destruct H as [H|[H|[H|H]]]; discriminate H. }
  assert (Hc : Ascii.eqb ch NUL = false).
  { destruct (Ascii.eqb_spec ch NUL) as [->|]; [|done]. discriminate Hn. }
  assert (Hl : strlen (toupper ch :: rest) = strlen (ch :: rest)).
  { unfold strlen. cbn [cstr]. by rewrite Hn, Hc. }
  unfold processCommand.
  change (aget NUL (ch :: rest) 0) with ch.
  change (aget NUL (toupper ch :: rest) 0) with (toupper ch).
  rewrite toupper_idem, Hn, Hc, Hl.
  change (drop 1 (toupper ch :: rest)) with (drop 1 (ch :: rest)).
  destruct (Ascii.eqb (toupper ch) "?" || Ascii.eqb (toupper ch) "H") eqn:E1;
    [done|].
  destruct (Ascii.eqb (toupper ch) "G") eqn:E2; [done|].
  destruct (negb (find_servo (toupper ch) SERVO_NAMES 0 =? -1)
            && (1 <? strlen (ch :: rest))) eqn:E3; [done|].
  exfalso. apply orb_false_elim in E1 as [E1a E1b].
  unfold is_motion in H. change (aget NUL (ch :: rest) 0) with ch in H.
  rewrite E3 in H.
  destruct H as [H|[H|[H|H]]]; try discriminate H;
    rewrite H in *; discriminate.
Qed.

Lemma first_letter_case_ignored_witness :
  is_motion (mem "c40") = true
  ∧ processCommand (mem "c40") BTSerial (setup 0 boot)
    = processCommand (mem "C40") BTSerial (setup 0 boot).
Proof.
  assert (M : toupper "c" = "?"%char ∨ toupper "c" = "H"%char
              ∨ toupper "c" = "G"%char
              ∨ is_motion ("c"%char :: chars "40" ++ [NUL]) = true)
    by (do 3 right; reflexivity).
  split; [reflexivity|].
  exact (first_letter_case_ignored "c" (chars "40" ++ [NUL]) BTSerial
           (setup 0 boot) M).
Defined.

(** X20: a scheduler tick concerns the active servo only: in a reachable
    state it never changes a target, never attaches a servo, and leaves
    the angle and the attachment of every servo other than the active one
    as they are; it calls the Servo library at most once, with a [write]
    or a [detach] for the active servo. *)
Theorem tick_frame t1 t2 s :
  reachable s →
  targetAngles (move_step t1 t2 s) = targetAngles s
  ∧ (∀ j, j ≠ activeServo s →
       current_of j (move_step t1 t2 s) = current_of j s
       ∧ servo_attached j (move_step t1 t2 s) = servo_attached j s)
  ∧ (servo_log (move_step t1 t2 s) = servo_log s
     ∨ servo_log (move_step t1 t2 s)
       = servo_log s
         ++ [Write (activeServo s) (current_of (activeServo s)
                                      (move_step t1 t2 s))]
     ∨ servo_log (move_step t1 t2 s)
       = servo_log s ++ [Detach (activeServo s)])
  ∧ btCommandBuffer (move_step t1 t2 s) = btCommandBuffer s
  ∧ btBufferIndex (move_step t1 t2 s) = btBufferIndex s
  ∧ lastInfoMs (move_step t1 t2 s) = lastInfoMs s.
Proof.
  intros HR. assert (HI := reachable_Inv s HR).
  assert (Hsame : move_step t1 t2 s = s →
            targetAngles (move_step t1 t2 s) = targetAngles s
            ∧ (∀ j, j ≠ activeServo s →
                 current_of j (move_step t1 t2 s) = current_of j s
                 ∧ servo_attached j (move_step t1 t2 s) = servo_attached j s)
            ∧ (servo_log (move_step t1 t2 s) = servo_log s
               ∨ servo_log (move_step t1 t2 s)
                 = servo_log s
                   ++ [Write (activeServo s)
                         (current_of (activeServo s) (move_step t1 t2 s))]
               ∨ servo_log (move_step t1 t2 s)
                 = servo_log s ++ [Detach (activeServo s)])
            ∧ btCommandBuffer (move_step t1 t2 s) = btCommandBuffer s
            ∧ btBufferIndex (move_step t1 t2 s) = btBufferIndex s
            ∧ lastInfoMs (move_step t1 t2 s) = lastInfoMs s).
  { intros ->. repeat split; by left. }
  destruct (inv_active s HI) as [Hn|Hv].
  { by apply Hsame, move_step_idle. }
  destruct (throttle_open t1 s) eqn:Ho; [|by apply Hsame, move_step_closed].
  assert (Hlen : 0 ≤ activeServo s < Z.of_nat (length (currentAngles s))).
  { rewrite (inv_current s HI). unfold valid_idx, NUM_SERVOS in Hv. lia. }
  destruct (Z.eq_dec (current_of (activeServo s) s)
              (target_of (activeServo s) s)) as [Heq|Hne].
  - rewrite move_step_arrive by done.
    unfold current_of, servo_attached. fields.
    split; [done|]. split.
    { intros j Hj. split; [done|]. by rewrite aget_aset_ne. }
    split; [by right; right|]. by repeat split.
  - rewrite move_step_advance by done.
    unfold current_of, servo_attached. fields.
    split; [done|]. split.
    { intros j Hj. split; [|done]. by rewrite aget_aset_ne. }
    split; [|by repeat split]. right; left.
    by rewrite aget_aset_eq.
Qed.

Lemma tick_frame_witness :
  let s := snd (processCommand (mem "E10") BTSerial (setup 0 boot)) in
  reachable s
  ∧ targetAngles (move_step 25 25 s) = targetAngles s
  ∧ current_of 1 (move_step 25 25 s) = 45
  ∧ current_of 4 (move_step 25 25 s) = 1.
Proof.
  cbv zeta.
  assert (R : reachable
                (snd (processCommand (mem "E10") BTSerial (setup 0 boot))))
    by apply reach_command, reach_setup.
  destruct (tick_frame 25 25 _ R) as (H1 & _).
  split; [exact R|]. split; [exact H1|]. split; vm_compute; reflexivity.
Defined.

(** * Bounds *)

(** X21: in every reachable state the array accesses of the firmware are
    inside their arrays: the buffer has its 32 cells and the write index is
    between 0 and 31 (so the terminating NUL always fits), the three servo
    arrays have six cells, and [activeServo] is -1 or the index of one of
    the six servos. *)
Theorem indices_in_bounds s :
  reachable s →
  length (btCommandBuffer s) = 32%nat
  ∧ 0 ≤ btBufferIndex s ≤ 31
  ∧ length (servos s) = 6%nat
  ∧ length (currentAngles s) = 6%nat
  ∧ length (targetAngles s) = 6%nat
  ∧ (activeServo s = -1 ∨ 0 ≤ activeServo s < NUM_SERVOS).
Proof.
  intros HR. assert (HI := reachable_Inv s HR).
  split; [apply (inv_buffer s HI)|]. split; [apply (inv_index s HI)|].
  split; [apply (inv_servos s HI)|]. split; [apply (inv_current s HI)|].
  split; [apply (inv_target s HI) | apply (inv_active s HI)].
Qed.

Lemma indices_in_bounds_witness :
  let s := bt_drain (fun _ => 1) 0
             (chars "F100 and far more than thirty-one bytes of text")
             (setup 0 boot) in
  reachable s ∧ btBufferIndex s = 31 ∧ length (btCommandBuffer s) = 32%nat.
Proof.
  cbv zeta.
  assert (R : reachable
                (bt_drain (fun _ => 1) 0
                   (chars "F100 and far more than thirty-one bytes of text")
                   (setup 0 boot)))
    by apply reachable_bt_drain, reach_setup.
  destruct (indices_in_bounds _ R) as (H1 & _).
  split; [exact R|]. split; [vm_compute; reflexivity | exact H1].
Defined.

(** X22: in every reachable state the target of every servo is inside the
    safe range of that servo, whatever commands were received, and the
    speed setting is still 20 ms per degree. *)
Theorem targets_in_range s :
  reachable s →
  (∀ c, valid_idx c → min_of c ≤ target_of c s ≤ max_of c)
  ∧ moveSpeed s = 20.
Proof.
  intros HR. assert (HI := reachable_Inv s HR).
  split; [apply (inv_tgt_range s HI) | apply (inv_speed s HI)].
Qed.

Lemma targets_in_range_witness :
  let s := run [line_env "B200" 10; line_env "B-5" 20; line_env "B77" 30]
             (setup 0 boot) in
  reachable s ∧ target_of 1 s = 77 ∧ min_of 1 ≤ target_of 1 s ≤ max_of 1.
Proof.
  cbv zeta.
  assert (R : reachable
                (run [line_env "B200" 10; line_env "B-5" 20;
                      line_env "B77" 30] (setup 0 boot)))
    by apply reachable_run, reach_setup.
  assert (V : valid_idx 1) by (vm_compute; split; congruence).
  split; [exact R|]. split; [vm_compute; reflexivity|].
  exact (proj1 (targets_in_range _ R) 1 V).
Defined.
